(** * adns: the resolution engine of a small forwarding DNS server

    A shallow embedding of [src/handler.go] (module [Handler]) and of the
    revision of the same handler that tracks upstream health
    ([src/unnamed/part_002], module [Watch]), with the properties of the
    zone matcher, the answer synthesizer, the answer cache and the
    forwarder that the specification states.

    Conventions.  Go strings are byte strings and are modelled as
    [string]; [uint16], [uint32] and [int64] values are modelled as [Z]
    (with the wrap-around of [int64] addition written out where the code
    adds); a [sync.Map] keyed by strings is a [gmap string _]; a nil
    slice is the empty list. *)

From Stdlib Require Import ZArith Lia Ascii.
From stdpp Require Import gmap strings list fin_maps pretty.

Open Scope string_scope.
Open Scope list_scope.
Open Scope Z_scope.

(** ** The parts of Go's [strings] package the handler calls *)

Module strings.

(** [strings.HasPrefix(s, prefix)] *)
Fixpoint HasPrefix (s prefix : string) : bool :=
  match prefix, s with
  | EmptyString, _ => true
  | String _ _, EmptyString => false
  | String c prefix', String d s' =>
      if Ascii.eqb c d then HasPrefix s' prefix' else false
  end.

(** [strings.Contains(s, substr)]: [substr] occurs somewhere in [s]. *)
Fixpoint Contains (s substr : string) : bool :=
  HasPrefix s substr ||
  match s with
  | EmptyString => false
  | String _ s' => Contains s' substr
  end.

(** [strings.Split(s, sep)] for a separator of one byte, the only way
    the handler calls it (["*"] and [","]).  The result is never
    empty: a string without the separator yields itself alone. *)
Fixpoint Split (s : string) (sep : ascii) : list string :=
  match s with
  | EmptyString => [EmptyString]
  | String c s' =>
      if Ascii.eqb c sep then EmptyString :: Split s' sep
      else match Split s' sep with
           | [] => [String c EmptyString]
           | piece :: pieces => String c piece :: pieces
           end
  end.

(** [strings.TrimSuffix(s, suffix)] for a suffix of one byte. *)
Fixpoint TrimSuffix (s : string) (suffix : ascii) : string :=
  match s with
  | EmptyString => EmptyString
  | String c EmptyString =>
      if Ascii.eqb c suffix then EmptyString else s
  | String c s' => String c (TrimSuffix s' suffix)
  end.

(** [strings.HasSuffix(s, suffix)].  Not called by the handler; used to
    tell a suffix from a substring. *)
Fixpoint HasSuffix (s suffix : string) : bool :=
  String.eqb s suffix ||
  match s with
  | EmptyString => false
  | String _ s' => HasSuffix s' suffix
  end.

(** The number of occurrences of a byte, [strings.Count(s, sep)] for a
    separator of one byte.  Not called by the handler; used to state
    that a record name holds a single wildcard token. *)
Fixpoint Count (s : string) (sep : ascii) : nat :=
  match s with
  | EmptyString => 0%nat
  | String c s' => ((if Ascii.eqb c sep then 1 else 0) + Count s' sep)%nat
  end.

End strings.

(** ** Configuration (the structs of the configuration file) *)

Record Record_ := mkRecord {
  rec_Name : string;
  rec_Type : string;
  rec_Value : string;
  rec_TTL : Z;          (* uint32 *)
  rec_Preference : Z    (* uint16 *)
}.

Record Domain := mkDomain {
  dom_Name : string;
  dom_Records : list Record_
}.

Record Config := mkConfig {
  cfg_Servers : list string;
  cfg_Domains : list Domain
}.

(** ** The parts of the DNS library the handler uses *)

Module dns.

Definition TypeA : Z := 1.
Definition TypeCNAME : Z := 5.
Definition TypeMX : Z := 15.
Definition TypeTXT : Z := 16.
Definition TypeAAAA : Z := 28.
Definition TypeHTTPS : Z := 65.
Definition ClassINET : Z := 1.

Record Question := mkQuestion {
  q_Name : string;
  q_Qtype : Z;        (* uint16 *)
  q_Qclass : Z
}.

Record RR_Header := mkHeader {
  hdr_Name : string;
  hdr_Rrtype : Z;
  hdr_Class : Z;
  hdr_Ttl : Z         (* uint32 *)
}.

(** [net.IP] is a byte slice; [nil] is the empty list. *)
Definition IP := list Z.

(** The one key-value pair of an HTTPS record the handler builds. *)
Inductive SVCBKeyValue :=
| SVCBAlpn (Alpn : list string).

(** The resource records the handler builds, and [Other] for whatever
    else an upstream server sends back. *)
Inductive RR :=
| A (Hdr : RR_Header) (addr : IP)
| AAAA (Hdr : RR_Header) (addr : IP)
| MX (Hdr : RR_Header) (Preference : Z) (Mx : string)
| CNAME (Hdr : RR_Header) (Target : string)
| HTTPS (Hdr : RR_Header) (Value : list SVCBKeyValue)
| Other (Hdr : RR_Header) (Rdata : string).

(** The method [Header()] of the interface [dns.RR]. *)
Definition Header (rr : RR) : RR_Header :=
  match rr with
  | A h _ | AAAA h _ | MX h _ _ | CNAME h _ | HTTPS h _ | Other h _ => h
  end.

End dns.

(** ** The type tables ([typeMap], and [typeMapRev] as [init] fills it) *)

Definition typeMap : gmap string Z :=
  list_to_map
    [ ("A", dns.TypeA); ("AAAA", dns.TypeAAAA); ("TXT", dns.TypeTXT);
      ("CNAME", dns.TypeCNAME); ("MX", dns.TypeMX); ("HTTPS", dns.TypeHTTPS) ].

(** [for k, v := range typeMap { typeMapRev[v] = k }] *)
Definition typeMapRev : gmap Z string :=
  map_fold (fun k v rev => <[v := k]> rev) ∅ typeMap.

(** ** The zone matcher ([match]) *)

(** The suffix a wildcard record is compared with (lines 123-128):
    the second piece of the record name split on the token, or the empty
    string when there is no second piece, then the domain name between
    dots. *)
Definition wildcardSuffix (domain : Domain) (r : Record_) : string :=
  let tmp := strings.Split (rec_Name r) "*"%char in
  let rName := if (1 <? length tmp)%nat then nth 1 tmp "" else "" in
  rName +:+ "." +:+ dom_Name domain +:+ ".".

(** The test of lines 118-133: [true] when the loop leaves the record by
    one of the first two [continue]s, that is when the record is not a
    name match for the question. *)
Definition nameMisses (question : dns.Question) (domain : Domain) (r : Record_) : bool :=
  let qName := rec_Name r +:+ "." +:+ dom_Name domain +:+ "." in
  if negb (String.eqb qName (dns.q_Name question)) then
    if negb (strings.Contains (rec_Name r) "*") then true
    else
      let suffix := wildcardSuffix domain r in
      if negb (strings.Contains (dns.q_Name question) suffix) then true
      else false
  else false.

(** The loop over the records of one domain (lines 117-146). *)
Fixpoint matchRecords (question : dns.Question) (domain : Domain)
    (records : list Record_) : option Record_ :=
  match records with
  | [] => None
  | r :: rest =>
      if nameMisses question domain r then matchRecords question domain rest
      else
        match typeMap !! rec_Type r with
        | None => matchRecords question domain rest
        | Some t =>
            if (t =? dns.q_Qtype question)%Z then Some r
            else
              let isSame :=
                (negb (dns.q_Qtype question =? dns.TypeA)%Z
                 || negb (dns.q_Qtype question =? dns.TypeAAAA)%Z
                 || negb (dns.q_Qtype question =? dns.TypeMX)%Z)
                && (t =? dns.TypeCNAME)%Z in
              if isSame then Some r
              else matchRecords question domain rest
        end
  end.

(** The loop over the domains (lines 109-147). *)
Fixpoint matchDomains (question : dns.Question) (domains : list Domain)
    : option Record_ :=
  match domains with
  | [] => None
  | domain :: rest =>
      if negb (strings.Contains (dns.q_Name question) (dom_Name domain))
      then matchDomains question rest
      else
        match typeMapRev !! dns.q_Qtype question with
        | None => matchDomains question rest
        | Some _ =>
            match matchRecords question domain (dom_Records domain) with
            | Some r => Some r
            | None => matchDomains question rest
            end
        end
  end.

(** The method [match] of the handler; [None] is its error
    ["not matched"], [Some r] the record it points to. *)
Definition match_ (cfg : Config) (question : dns.Question) : option Record_ :=
  matchDomains question (cfg_Domains cfg).

(** The matcher read record by record.  A domain is a [candidate] for a
    question when the loop over the domains enters it; a record is a
    name match when [nameMisses] is false; the matcher [selects] a name
    match whose type is the requested one or CNAME; it [accepts] a
    record of a domain when the domain is a candidate and the record is
    selected.  [matchDomains_first] below shows that [match] returns the
    first record it accepts. *)
Definition candidate (question : dns.Question) (domain : Domain) : bool :=
  strings.Contains (dns.q_Name question) (dom_Name domain)
  && bool_decide (is_Some (typeMapRev !! dns.q_Qtype question)).

Definition selects (question : dns.Question) (domain : Domain) (r : Record_) : bool :=
  negb (nameMisses question domain r)
  && match typeMap !! rec_Type r with
     | Some t => (t =? dns.q_Qtype question) || (t =? dns.TypeCNAME)
     | None => false
     end.

Definition accepts (question : dns.Question) (domain : Domain) (r : Record_) : bool :=
  candidate question domain && selects question domain r.

(** The records [match] accepts for a question, in the order in which
    the two loops meet them. *)
Definition acceptedRecords (cfg : Config) (question : dns.Question)
    : list Record_ :=
  flat_map (fun d => filter (fun r => accepts question d r = true)
                            (dom_Records d))
           (cfg_Domains cfg).

(** ** The answer cache (the global [cache], a [sync.Map]) *)

Record cacheItem := mkCacheItem {
  expire : Z;               (* int64, Unix seconds *)
  value : list dns.RR
}.

(** Addition of two [int64] values. *)
Definition wrap64 (z : Z) : Z := (z + 2 ^ 63) mod 2 ^ 64 - 2 ^ 63.
Definition add64 (a b : Z) : Z := wrap64 (a + b).

(** [fmt.Sprintf("%s-%d", domain, qtype)] *)
Definition cacheKey (domain : string) (qtype : Z) : string :=
  domain +:+ "-" +:+ pretty qtype.

(** [clearCache], run at the Unix time [now]: [Range] visits every entry
    and deletes the ones whose [expire] is below [now]. *)
Definition clearCache (now : Z) (cache : gmap string cacheItem)
    : gmap string cacheItem :=
  map_fold (fun key v cache' =>
              if (expire v <? now)%Z then delete key cache' else cache')
           cache cache.

(** A cache [cache'] extends a cache [cache] when it keeps every entry
    of [cache] and every entry it adds holds at least one record: what a
    served query does to the cache (shown below). *)
Definition extends (cache cache' : gmap string cacheItem) : Prop :=
  (forall key item, cache !! key = Some item -> cache' !! key = Some item)
  /\ (forall key item, cache' !! key = Some item ->
        cache !! key = Some item \/ value item <> []).

(** A cache all of whose entries hold at least one record. *)
Definition nonempty (cache : gmap string cacheItem) : Prop :=
  forall key item, cache !! key = Some item -> value item <> [].

(** What [c.Exchange(m, server)] gives back: an error (with or without a
    message), or a message, of which the handler reads the answer
    section only. *)
Inductive ExchangeResult :=
| ExchangeError (in_ : option (list dns.RR))
| ExchangeReply (Answer : list dns.RR).

(** The reply message, as far as the handler fills it. *)
Record Msg := mkMsg {
  Authoritative : bool;
  Answer : list dns.RR
}.

(** ** [src/handler.go]: forwarder, synthesizer and orchestrator *)

Module Handler.
Section Engine.

(** What lies outside the program: the state of the network and of
    the clock ([World]), the query message built from a name and a
    type (lines 80-82), the exchange of a message with a server, the
    clock ([time.Now().Unix()]) and [net.ParseIP], which yields [nil]
    for a string that is not an address. *)
Context {World Query : Type}.
Variable newQuery : string -> Z -> Query.
Variable Exchange : World -> Query -> string -> ExchangeResult * World.
Variable Now : World -> Z.
Variable ParseIP : string -> dns.IP.

(** The loop over [h.cfg.Servers] (lines 85-104). *)
Fixpoint exchangeServers (m : Query) (key : string) (servers : list string)
    (cache : gmap string cacheItem) (w : World)
    : list dns.RR * gmap string cacheItem * World :=
  match servers with
  | [] => ([], cache, w)
  | server :: rest =>
      let '(res, w1) := Exchange w m server in
      match res with
      | ExchangeError _ => exchangeServers m key rest cache w1
      | ExchangeReply Answer =>
          match Answer with
          | first :: _ =>
              let ttl := dns.hdr_Ttl (dns.Header first) in
              (Answer,
               <[key := mkCacheItem (add64 (Now w1) ttl) Answer]> cache,
               w1)
          | [] => (Answer, cache, w1)
          end
      end
  end.

(** [resolve(domain, qtype)] on the cache [cache] in the world [w]. *)
Definition resolve (cfg : Config) (domain : string) (qtype : Z)
    (cache : gmap string cacheItem) (w : World)
    : list dns.RR * gmap string cacheItem * World :=
  let key := cacheKey domain qtype in
  match cache !! key with
  | Some v => (value v, cache, w)
  | None =>
      exchangeServers (newQuery domain qtype) key (cfg_Servers cfg) cache w
  end.

(** The records the [switch] of [handleLocal] builds for a matched
    record (lines 161-197); the empty list in the [default] case. *)
Definition synthesize (question : dns.Question) (r : Record_) : list dns.RR :=
  let name := dns.q_Name question in
  let t := default 0 (typeMap !! rec_Type r) in
  if (t =? dns.TypeA)%Z then
    [dns.A (dns.mkHeader name dns.TypeA dns.ClassINET (rec_TTL r))
           (ParseIP (rec_Value r))]
  else if (t =? dns.TypeAAAA)%Z then
    [dns.AAAA (dns.mkHeader name dns.TypeAAAA dns.ClassINET (rec_TTL r))
              (ParseIP (rec_Value r))]
  else if (t =? dns.TypeMX)%Z then
    [dns.MX (dns.mkHeader name dns.TypeMX dns.ClassINET (rec_TTL r))
            (rec_Preference r) (rec_Value r)]
  else if (t =? dns.TypeCNAME)%Z then
    [dns.CNAME (dns.mkHeader name dns.TypeCNAME dns.ClassINET (rec_TTL r))
               (strings.TrimSuffix (rec_Value r) "." +:+ ".")]
  else if (t =? dns.TypeHTTPS)%Z then
    [dns.HTTPS (dns.mkHeader "." dns.TypeHTTPS dns.ClassINET 0)
               [dns.SVCBAlpn (strings.Split (rec_Value r) ",")]]
  else [].

(** The closure [handleLocal] (lines 156-200): the answer section of
    the reply after the call, and the boolean it returns. *)
Definition handleLocal (cfg : Config) (question : dns.Question)
    (answer : list dns.RR) : list dns.RR * bool :=
  match match_ cfg question with
  | None => (answer, false)
  | Some r => (answer ++ synthesize question r, false)
  end.

(** The body of the loop over the questions (lines 202-210). *)
Definition serveQuestion (cfg : Config)
    (st : list dns.RR * gmap string cacheItem * World)
    (question : dns.Question)
    : list dns.RR * gmap string cacheItem * World :=
  let '(answer, cache, w) := st in
  let '(answer1, done_) := handleLocal cfg question answer in
  if done_ then (answer1, cache, w)
  else
    let '(answers, cache1, w1) :=
      resolve cfg (dns.q_Name question) (dns.q_Qtype question) cache w in
    (answer1 ++ answers, cache1, w1).

(** [ServeDNS]: the reply written, the cache and the world after it. *)
Definition ServeDNS (cfg : Config) (questions : list dns.Question)
    (cache : gmap string cacheItem) (w : World)
    : Msg * gmap string cacheItem * World :=
  let '(answer, cache1, w1) :=
    fold_left (serveQuestion cfg) questions ([], cache, w) in
  (mkMsg true answer, cache1, w1).

(** The world after every server of a list has failed with an error,
    [None] when one of them replies. *)
Fixpoint failAll (m : Query) (servers : list string) (w : World)
    : option World :=
  match servers with
  | [] => Some w
  | server :: rest =>
      match Exchange w m server with
      | (ExchangeError _, w1) => failAll m rest w1
      | (ExchangeReply _, _) => None
      end
  end.

(** The life of the cache: queries served, each in the world it finds,
    and sweeps of the eviction loop, each at the time it reads. *)
Inductive event :=
| Serve (questions : list dns.Question) (w : World)
| Sweep (now : Z).

Definition step (cfg : Config) (cache : gmap string cacheItem) (ev : event)
    : gmap string cacheItem :=
  match ev with
  | Serve questions w => (ServeDNS cfg questions cache w).1.2
  | Sweep now => clearCache now cache
  end.

Definition run (cfg : Config) (evs : list event)
    (cache : gmap string cacheItem) : gmap string cacheItem :=
  fold_left (step cfg) evs cache.

(** The states of the cache the program can be in: it starts empty. *)
Definition reachable (cfg : Config) (cache : gmap string cacheItem) : Prop :=
  exists evs, run cfg evs ∅ = cache.

(** An event that leaves alone an entry that expires at [deadline]:
    a served query, or a sweep that runs no later than [deadline]. *)
Definition notAfter (deadline : Z) (ev : event) : Prop :=
  match ev with
  | Serve _ _ => True
  | Sweep now => now <= deadline
  end.

(** The entry a store makes of an answer in the world [w], if it makes
    one: used to state what lines 94-101 write. *)
Definition stored (w : World) (answers : list dns.RR) : option cacheItem :=
  match answers with
  | first :: _ =>
      Some (mkCacheItem (add64 (Now w) (dns.hdr_Ttl (dns.Header first)))
                        answers)
  | [] => None
  end.

End Engine.
End Handler.

(** ** [src/unnamed/part_002]: the revision with the upstream health monitor *)

Module Watch.

Record upstream := mkUpstream {
  server : string;
  heatbeat : Z;       (* int64 *)
  failed : Z          (* int *)
}.

(** [func (s *upstream) IsDead() bool] *)
Definition IsDead (s : upstream) : bool := 20 <? failed s.

Section Engine.

(** As in [Handler], with the fixed test query of the monitor and the
    order in which [sync.Map.Range] visits the serving set, which Go
    leaves open. *)
Context {World Query : Type}.
Variable newQuery : string -> Z -> Query.
Variable probeQuery : Query.
Variable Exchange : World -> Query -> string -> ExchangeResult * World.
Variable Now : World -> Z.
Variable ParseIP : string -> dns.IP.
Variable Range : gmap string nat -> list (string * nat).

(** The state the monitor works on: the structs behind the slice
    [upstreams] (a pointer is an index into the list), the serving set
    [h.upstream] from a server to the pointer stored for it, and the
    world. *)
Definition MonitorState : Type := list upstream * gmap string nat * World.

(** [in != nil && len(in.Answer) > 0] (line 112) *)
Definition answered (res : ExchangeResult) : bool :=
  match res with
  | ExchangeError None => false
  | ExchangeError (Some Answer) | ExchangeReply Answer =>
      (0 <? length Answer)%nat
  end.

(** The body of the loop over [upstreams] for the pointer [i]
    (lines 95-121). *)
Definition probe (st : MonitorState) (i : nat) : MonitorState :=
  let '(upstreams, alive, w) := st in
  match upstreams !! i with
  | None => st
  | Some up =>
      if IsDead up then st
      else
        let '(res, w1) := Exchange w probeQuery (server up) in
        let up1 := mkUpstream (server up) (Now w1) (failed up) in
        let ok := bool_decide (is_Some (alive !! server up)) in
        if answered res then
          let up2 := mkUpstream (server up1) (heatbeat up1) 0 in
          (<[i := up2]> upstreams, <[server up := i]> alive, w1)
        else
          let up2 :=
            mkUpstream (server up1) (heatbeat up1) (add64 (failed up1) 1) in
          (<[i := up2]> upstreams,
           if ok && (5 <=? failed up2) then delete (server up) alive
           else alive,
           w1)
  end.

(** One run of the closure [loop] (lines 94-122). *)
Definition loop (st : MonitorState) : MonitorState :=
  let '(upstreams, _, _) := st in
  fold_left probe (seq 0 (length upstreams)) st.

(** The state [watch] starts from (lines 87-92, with the empty serving
    set of [NewHandler]), and the state after [n] runs of [loop]; the
    sleep between two runs lets the world change, which the function
    [pause] stands for. *)
Definition watchInit (cfg : Config) (w : World) : MonitorState :=
  (map (fun server => mkUpstream server 0 0) (cfg_Servers cfg), ∅, w).

Fixpoint watch (pause : World -> World) (n : nat) (st : MonitorState)
    : MonitorState :=
  match n with
  | O => st
  | S n' =>
      let '(upstreams, alive, w) := loop st in
      watch pause n' (upstreams, alive, pause w)
  end.

(** The walk of [Range] over the serving set in [resolve]
    (lines 136-150). *)
Fixpoint exchangeUpstreams (m : Query) (upstreams : list upstream)
    (entries : list (string * nat)) (w : World) : list dns.RR * World :=
  match entries with
  | [] => ([], w)
  | (_, i) :: rest =>
      match upstreams !! i with
      | None => exchangeUpstreams m upstreams rest w
      | Some up =>
          let '(res, w1) := Exchange w m (server up) in
          match res with
          | ExchangeError _ => exchangeUpstreams m upstreams rest w1
          | ExchangeReply Answer => (Answer, w1)
          end
      end
  end.

Definition resolve (upstreams : list upstream) (alive : gmap string nat)
    (domain : string) (qtype : Z) (w : World) : list dns.RR * World :=
  exchangeUpstreams (newQuery domain qtype) upstreams (Range alive) w.

(** The closure [handleLocal] (lines 201-245). *)
Definition handleLocal (cfg : Config) (question : dns.Question)
    : list dns.RR * bool :=
  match match_ cfg question with
  | None => ([], false)
  | Some r =>
      match Handler.synthesize ParseIP question r with
      | [] => ([], false)
      | answers => (answers, true)
      end
  end.

(** The body of the loop over the questions (lines 250-278); the
    monitor runs beside it, so its state is read only. *)
Definition serveQuestion (cfg : Config) (upstreams : list upstream)
    (alive : gmap string nat)
    (st : list dns.RR * gmap string cacheItem * World)
    (question : dns.Question)
    : list dns.RR * gmap string cacheItem * World :=
  let '(answer, cache, w) := st in
  let key := cacheKey (dns.q_Name question) (dns.q_Qtype question) in
  let cached := value <$> cache !! key in
  let answer1 := answer ++ default [] cached in
  match cached with
  | Some (_ :: _) => (answer1, cache, w)
  | _ =>
      let '(answers, w1) :=
        let '(local, ok) := handleLocal cfg question in
        if ok then (local, w)
        else resolve upstreams alive (dns.q_Name question)
                     (dns.q_Qtype question) w in
      let cache1 :=
        match answers with
        | first :: _ =>
            let ttl := dns.hdr_Ttl (dns.Header first) in
            <[key := mkCacheItem (add64 (Now w1) ttl) answers]> cache
        | [] => cache
        end in
      (answer1 ++ answers, cache1, w1)
  end.

Definition ServeDNS (cfg : Config) (upstreams : list upstream)
    (alive : gmap string nat) (questions : list dns.Question)
    (cache : gmap string cacheItem) (w : World)
    : Msg * gmap string cacheItem * World :=
  let '(answer, cache1, w1) :=
    fold_left (serveQuestion cfg upstreams alive) questions ([], cache, w) in
  (mkMsg true answer, cache1, w1).

(** The life of the cache, as in [Handler]; a query is served with the
    state of the monitor it finds. *)
Inductive event :=
| Serve (upstreams : list upstream) (alive : gmap string nat)
        (questions : list dns.Question) (w : World)
| Sweep (now : Z).

Definition step (cfg : Config) (cache : gmap string cacheItem) (ev : event)
    : gmap string cacheItem :=
  match ev with
  | Serve upstreams alive questions w =>
      (ServeDNS cfg upstreams alive questions cache w).1.2
  | Sweep now => clearCache now cache
  end.

Definition run (cfg : Config) (evs : list event)
    (cache : gmap string cacheItem) : gmap string cacheItem :=
  fold_left (step cfg) evs cache.

Definition reachable (cfg : Config) (cache : gmap string cacheItem) : Prop :=
  exists evs, run cfg evs ∅ = cache.

(** Every failure counter of a state of the monitor is between 0 and
    21. *)
Definition countersInRange (st : MonitorState) : Prop :=
  Forall (fun up => 0 <= failed up <= 21) st.1.1.

(** Every entry of the serving set points to an endpoint of the server
    it is stored under, one that has failed fewer than five times in a
    row. *)
Definition servingSound (st : MonitorState) : Prop :=
  forall s i, st.1.2 !! s = Some i ->
    exists up, st.1.1 !! i = Some up /\ server up = s /\ 0 <= failed up <= 4.

(** [Range] visits the entries of the map, each once, in some order. *)
Definition visitsAll : Prop :=
  forall alive : gmap string nat, Range alive ≡ₚ map_to_list alive.

(** The world after the exchanges with all the endpoints of a walk of
    [Range] have failed with an error, [None] when one of them
    replies. *)
Fixpoint failAll (m : Query) (upstreams : list upstream)
    (entries : list (string * nat)) (w : World) : option World :=
  match entries with
  | [] => Some w
  | (_, i) :: rest =>
      match upstreams !! i with
      | None => failAll m upstreams rest w
      | Some up =>
          match Exchange w m (server up) with
          | (ExchangeError _, w1) => failAll m upstreams rest w1
          | (ExchangeReply _, _) => None
          end
      end
  end.

End Engine.
End Watch.

(** ** [src/unnamed/part_001]: the first revision of the handler *)

Module Early.

(** The tables that [ServeDNS] builds at every call (lines 132-142):
    there is no HTTPS yet. *)
Definition typeMap : gmap string Z :=
  list_to_map
    [ ("A", dns.TypeA); ("AAAA", dns.TypeAAAA); ("TXT", dns.TypeTXT);
      ("CNAME", dns.TypeCNAME); ("MX", dns.TypeMX) ].

Definition typeMapRev : gmap Z string :=
  map_fold (fun k v rev => <[v := k]> rev) ∅ typeMap.

(** The loop over the records of one domain in [handleLocal]
    (lines 153-207), up to the record at which it returns: the type is
    tested before the name, and has to be the type asked for. *)
Fixpoint localRecords (question : dns.Question) (domain : Domain)
    (records : list Record_) : option Record_ :=
  match records with
  | [] => None
  | r :: rest =>
      match typeMap !! rec_Type r with
      | None => localRecords question domain rest
      | Some t =>
          if negb (t =? dns.q_Qtype question)
          then localRecords question domain rest
          else if nameMisses question domain r
               then localRecords question domain rest
               else Some r
      end
  end.

(** The loop over the domains (lines 145-208). *)
Fixpoint localDomains (question : dns.Question) (domains : list Domain)
    : option Record_ :=
  match domains with
  | [] => None
  | domain :: rest =>
      if negb (strings.Contains (dns.q_Name question) (dom_Name domain))
      then localDomains question rest
      else
        match typeMapRev !! dns.q_Qtype question with
        | None => localDomains question rest
        | Some _ =>
            match localRecords question domain (dom_Records domain) with
            | Some r => Some r
            | None => localDomains question rest
            end
        end
  end.

Section Engine.

Context {World Query : Type}.
Variable newQuery : string -> Z -> Query.
Variable Exchange : World -> Query -> string -> ExchangeResult * World.
Variable ParseIP : string -> dns.IP.

(** The loop over [h.cfg.Servers] in [resolve] (lines 110-124); the
    cache of this revision keeps the answer itself, with no expiry. *)
Fixpoint exchangeServers (m : Query) (key : string) (servers : list string)
    (cache : gmap string (list dns.RR)) (w : World)
    : list dns.RR * gmap string (list dns.RR) * World :=
  match servers with
  | [] => ([], cache, w)
  | server :: rest =>
      let '(res, w1) := Exchange w m server in
      match res with
      | ExchangeError _ => exchangeServers m key rest cache w1
      | ExchangeReply Answer =>
          if (0 <? length Answer)%nat
          then (Answer, <[key := Answer]> cache, w1)
          else (Answer, cache, w1)
      end
  end.

Definition resolve (cfg : Config) (domain : string) (qtype : Z)
    (cache : gmap string (list dns.RR)) (w : World)
    : list dns.RR * gmap string (list dns.RR) * World :=
  let key := cacheKey domain qtype in
  match cache !! key with
  | Some v => (v, cache, w)
  | None =>
      exchangeServers (newQuery domain qtype) key (cfg_Servers cfg) cache w
  end.

(** The [switch] on the type of the question (lines 177-205). *)
Definition synthesize (question : dns.Question) (r : Record_) : list dns.RR :=
  let name := dns.q_Name question in
  let t := dns.q_Qtype question in
  if (t =? dns.TypeA)%Z then
    [dns.A (dns.mkHeader name dns.TypeA dns.ClassINET (rec_TTL r))
           (ParseIP (rec_Value r))]
  else if (t =? dns.TypeAAAA)%Z then
    [dns.AAAA (dns.mkHeader name dns.TypeAAAA dns.ClassINET (rec_TTL r))
              (ParseIP (rec_Value r))]
  else if (t =? dns.TypeMX)%Z then
    [dns.MX (dns.mkHeader name dns.TypeMX dns.ClassINET (rec_TTL r))
            (rec_Preference r) (rec_Value r)]
  else if (t =? dns.TypeCNAME)%Z then
    [dns.CNAME (dns.mkHeader name dns.TypeCNAME dns.ClassINET (rec_TTL r))
               (rec_Value r)]
  else [].

(** The closure [handleLocal] (lines 144-210). *)
Definition handleLocal (cfg : Config) (question : dns.Question)
    (answer : list dns.RR) : list dns.RR * bool :=
  match localDomains question (cfg_Domains cfg) with
  | None => (answer, false)
  | Some r => (answer ++ synthesize question r, true)
  end.

(** The body of the loop over the questions (lines 212-220). *)
Definition serveQuestion (cfg : Config)
    (st : list dns.RR * gmap string (list dns.RR) * World)
    (question : dns.Question)
    : list dns.RR * gmap string (list dns.RR) * World :=
  let '(answer, cache, w) := st in
  let '(answer1, done_) := handleLocal cfg question answer in
  if done_ then (answer1, cache, w)
  else
    let '(answers, cache1, w1) :=
      resolve cfg (dns.q_Name question) (dns.q_Qtype question) cache w in
    (answer1 ++ answers, cache1, w1).

Definition ServeDNS (cfg : Config) (questions : list dns.Question)
    (cache : gmap string (list dns.RR)) (w : World)
    : Msg * gmap string (list dns.RR) * World :=
  let '(answer, cache1, w1) :=
    fold_left (serveQuestion cfg) questions ([], cache, w) in
  (mkMsg true answer, cache1, w1).

(** The cache after a run of messages, each served in the world it
    finds; this revision has no sweep. *)
Definition serveAll (cfg : Config)
    (msgs : list (list dns.Question * World))
    (cache : gmap string (list dns.RR)) : gmap string (list dns.RR) :=
  fold_left (fun cache' msg => (ServeDNS cfg msg.1 cache' msg.2).1.2)
            msgs cache.

End Engine.
End Early.

(** ** A closed world to run the code in *)

Module Scenario.

(** The clock and the servers contacted so far, latest first. *)
Record TestWorld := mkWorld {
  clock : Z;
  contacted : list string
}.

Definition newQuery (domain : string) (qtype : Z) : string * Z :=
  (domain, qtype).

Definition upstreamAnswer (name : string) : list dns.RR :=
  [dns.A (dns.mkHeader name dns.TypeA dns.ClassINET 60)
         [0; 0; 0; 0; 0; 0; 0; 0; 0; 0; 255; 255; 93; 184; 216; 34]].

Definition aliasedAnswer (name : string) : list dns.RR :=
  [dns.CNAME (dns.mkHeader name dns.TypeCNAME dns.ClassINET 300)
             "edge.example.net.";
   dns.A (dns.mkHeader "edge.example.net." dns.TypeA dns.ClassINET 60)
         [0; 0; 0; 0; 0; 0; 0; 0; 0; 0; 255; 255; 93; 184; 216; 34]].

(** ["8.8.8.8:53"] answers every query with one address record,
    ["1.1.1.1:53"] with an alias that lives 300 seconds and the
    address of the alias that lives 60 seconds,
    ["9.9.9.9:53"] answers with an empty answer section, every other
    server times out; an exchange takes one second. *)
Definition Exchange (w : TestWorld) (m : string * Z) (server : string)
    : ExchangeResult * TestWorld :=
  let w1 := mkWorld (clock w + 1) (server :: contacted w) in
  if String.eqb server "8.8.8.8:53" then
    (ExchangeReply (upstreamAnswer (fst m)), w1)
  else if String.eqb server "1.1.1.1:53" then
    (ExchangeReply (aliasedAnswer (fst m)), w1)
  else if String.eqb server "9.9.9.9:53" then (ExchangeReply [], w1)
  else (ExchangeError None, w1).

Definition Now (w : TestWorld) : Z := clock w.

(** [net.ParseIP] on dotted-decimal literals: four fields of digits
    without a leading zero, each at most 255, give the 16-byte form of
    the address; every other string is taken as unparsable ([nil]).
    Literals of IPv6 do not occur in the examples. *)
Definition digit (c : ascii) : option Z :=
  let n := Z.of_N (N_of_ascii c) in
  if (48 <=? n) && (n <=? 57) then Some (n - 48) else None.

Fixpoint octet (s : string) (digLen : nat) (val : Z) : option Z :=
  match s with
  | EmptyString => if (digLen =? 0)%nat then None else Some val
  | String c s' =>
      match digit c with
      | None => None
      | Some d =>
          if (digLen =? 1)%nat && (val =? 0) then None
          else
            let val' := val * 10 + d in
            if 255 <? val' then None else octet s' (S digLen) val'
      end
  end.

Definition ParseIP (s : string) : dns.IP :=
  match strings.Split s "." with
  | [f0; f1; f2; f3] =>
      match octet f0 0 0, octet f1 0 0, octet f2 0 0, octet f3 0 0 with
      | Some a, Some b, Some c, Some d =>
          [0; 0; 0; 0; 0; 0; 0; 0; 0; 0; 255; 255; a; b; c; d]
      | _, _, _, _ => []
      end
  | _ => []
  end.

Definition w0 : TestWorld := mkWorld 1700000000 [].

(** The configuration of the concrete scenario of the specification. *)
Definition exampleCfg : Config :=
  mkConfig ["8.8.8.8:53"]
    [ mkDomain "example.com" [ mkRecord "www" "A" "1.2.3.4" 300 0 ] ].

(** The wildcard record of the specification, a record with two
    tokens, an alias, a text record and an address record whose value
    is no address. *)
Definition exampleDomain (records : list Record_) : Domain :=
  mkDomain "example.com" records.

Definition starRecord : Record_ := mkRecord "*" "A" "5.6.7.8" 60 0.
Definition twoTokens : Record_ := mkRecord "a*b*c" "A" "5.6.7.8" 60 0.
Definition aliasRecord : Record_ :=
  mkRecord "www" "CNAME" "target.example.net" 300 0.
Definition textRecord : Record_ := mkRecord "txt" "TXT" "hello" 300 0.
Definition badRecord : Record_ := mkRecord "bad" "A" "not-an-ip" 300 0.
Definition wwwRecord : Record_ := mkRecord "www" "A" "1.2.3.4" 300 0.
Definition httpsRecord : Record_ := mkRecord "svc" "HTTPS" "h2,http/1.1" 300 0.

Definition cfgOf (servers : list string) (records : list Record_) : Config :=
  mkConfig servers [exampleDomain records].

Definition resolve := Handler.resolve newQuery Exchange Now.
Definition handleLocal := Handler.handleLocal ParseIP.
Definition ServeDNS := Handler.ServeDNS newQuery Exchange Now ParseIP.

End Scenario.

(** * Properties *)

(** ** Strings *)

Module strings_facts.
Import strings.

Lemma HasPrefix_refl s : HasPrefix s s = true.
Proof. induction s as [|c s IH]; simpl; [done|]. by rewrite Ascii.eqb_refl. Qed.

Lemma Contains_refl s : Contains s s = true.
Proof. destruct s; simpl; [done|]. by rewrite Ascii.eqb_refl, HasPrefix_refl. Qed.

Lemma app_String c a b : String c a +:+ b = String c (a +:+ b).
Proof. reflexivity. Qed.

Lemma app_assoc a b c : (a +:+ b) +:+ c = a +:+ (b +:+ c).
Proof.
  induction a as [|d a IH]; [done|].
  by rewrite !app_String, IH.
Qed.

Lemma Contains_String c s sub :
  Contains s sub = true -> Contains (String c s) sub = true.
Proof. intros H. simpl. rewrite H. apply orb_true_r. Qed.

Lemma Contains_app_l a s sub :
  Contains s sub = true -> Contains (a +:+ s) sub = true.
Proof.
  intros H. induction a as [|c a IH]; [done|].
  rewrite app_String. by apply Contains_String.
Qed.

Lemma HasPrefix_app s t : HasPrefix (s +:+ t) s = true.
Proof.
  induction s as [|c s IH]; [by destruct t|].
  rewrite app_String. simpl. by rewrite Ascii.eqb_refl.
Qed.

(** A string contains each of its prefixes. *)
Lemma Contains_prefix s t : Contains (s +:+ t) s = true.
Proof.
  pose proof (HasPrefix_app s t) as H.
  destruct (s +:+ t); unfold Contains; fold Contains; by rewrite H.
Qed.

Lemma Contains_token s c :
  Contains s (String c "") = true <-> (0 < Count s c)%nat.
Proof.
  induction s as [|d s IH]; simpl.
  - split; [done | lia].
  - rewrite (Ascii.eqb_sym c d).
    destruct (Ascii.eqb d c); simpl.
    + destruct s; split; intros; auto; lia.
    + apply IH.
Qed.

Lemma Split_no_token s sep : Count s sep = 0%nat -> Split s sep = [s].
Proof.
  induction s as [|c s IH]; simpl; [done|].
  destruct (Ascii.eqb c sep); [done|].
  intros H. by rewrite IH.
Qed.

(** A string with a single token splits into what stands before the
    token and what stands after it. *)
Lemma Split_one_token s sep :
  Count s sep = 1%nat ->
  exists pre post, s = pre +:+ String sep post /\ Split s sep = [pre; post].
Proof.
  induction s as [|c s IH]; simpl; [done|].
  destruct (Ascii.eqb_spec c sep) as [->|Hne]; simpl; intros H.
  - exists "", s. split; [done|]. rewrite Split_no_token; [done | lia].
  - destruct (IH H) as (pre & post & -> & HS).
    exists (String c pre), post. split; [done|]. by rewrite HS.
Qed.

End strings_facts.

(** ** The type tables *)

Lemma typeMapRev_eq :
  typeMapRev =
  list_to_map [ (1, "A"); (28, "AAAA"); (16, "TXT"); (5, "CNAME");
                (15, "MX"); (65, "HTTPS") ].
Proof. vm_compute. reflexivity. Qed.

(** The supported query types are the six types of [typeMap]. *)
Lemma typeMapRev_supported (t : Z) :
  is_Some (typeMapRev !! t) <->
  t = dns.TypeA \/ t = dns.TypeAAAA \/ t = dns.TypeTXT \/ t = dns.TypeCNAME
  \/ t = dns.TypeMX \/ t = dns.TypeHTTPS.
Proof.
  rewrite typeMapRev_eq. unfold dns.TypeA, dns.TypeAAAA, dns.TypeTXT,
    dns.TypeCNAME, dns.TypeMX, dns.TypeHTTPS. simpl.
  repeat (rewrite lookup_insert; case_decide; [split; [lia | eauto] |]).
  rewrite lookup_empty. split; [intros [? ?]; done | lia].
Qed.

Lemma typeMap_supported (k : string) (t : Z) :
  typeMap !! k = Some t -> is_Some (typeMapRev !! t).
Proof.
  unfold typeMap. simpl. intros H. apply typeMapRev_supported.
  unfold dns.TypeA, dns.TypeAAAA, dns.TypeTXT,
    dns.TypeCNAME, dns.TypeMX, dns.TypeHTTPS in *.
  repeat (rewrite lookup_insert in H; case_decide; [simplify_eq; lia |]).
  by rewrite lookup_empty in H.
Qed.

(** ** The zone matcher *)

Section matcher.
Import strings strings_facts.

Implicit Types (question : dns.Question) (domain : Domain) (r : Record_).

(** The first conjunct of [isSame] holds for every query type: no type
    is A, AAAA and MX at once. *)
Lemma isSame_left (t : Z) :
  negb (t =? dns.TypeA) || negb (t =? dns.TypeAAAA) || negb (t =? dns.TypeMX)
  = true.
Proof.
  unfold dns.TypeA, dns.TypeAAAA.
  destruct (Z.eqb_spec t 1), (Z.eqb_spec t 28); simpl; try done; lia.
Qed.

Lemma matchRecords_step question domain r rest :
  matchRecords question domain (r :: rest) =
  if selects question domain r then Some r
  else matchRecords question domain rest.
Proof.
  unfold selects. simpl.
  destruct (nameMisses question domain r); simpl; [done|].
  destruct (typeMap !! rec_Type r) as [t|]; [|done].
  destruct (t =? dns.q_Qtype question); simpl; [done|].
  by rewrite isSame_left.
Qed.

Lemma matchRecords_none question domain rs :
  (forall r', r' ∈ rs -> selects question domain r' = false) ->
  matchRecords question domain rs = None.
Proof.
  induction rs as [|r rs IH]; intros H; [done|].
  rewrite matchRecords_step, (H r) by set_solver.
  apply IH. intros r' Hr'. apply H. set_solver.
Qed.

(** The scan of a domain returns the first record it selects. *)
Lemma matchRecords_first question domain rs1 r rs2 :
  (forall r', r' ∈ rs1 -> selects question domain r' = false) ->
  selects question domain r = true ->
  matchRecords question domain (rs1 ++ r :: rs2) = Some r.
Proof.
  induction rs1 as [|r1 rs1 IH]; intros H Hr; simpl app.
  - by rewrite matchRecords_step, Hr.
  - rewrite matchRecords_step, (H r1) by set_solver.
    apply IH; [|done]. intros r' Hr'. apply H. set_solver.
Qed.

Lemma matchDomains_step question domain rest :
  matchDomains question (domain :: rest) =
  if candidate question domain then
    match matchRecords question domain (dom_Records domain) with
    | Some r => Some r
    | None => matchDomains question rest
    end
  else matchDomains question rest.
Proof.
  unfold candidate. simpl.
  destruct (Contains (dns.q_Name question) (dom_Name domain)); simpl; [|done].
  destruct (typeMapRev !! dns.q_Qtype question) eqn:E.
  - rewrite bool_decide_eq_true_2; by eauto.
  - rewrite bool_decide_eq_false_2; [done|]. by intros [? ?].
Qed.

Lemma matchDomains_none question ds :
  (forall d' r', d' ∈ ds -> r' ∈ dom_Records d' ->
                 accepts question d' r' = false) ->
  matchDomains question ds = None.
Proof.
  induction ds as [|d ds IH]; intros H; [done|].
  rewrite matchDomains_step.
  destruct (candidate question d) eqn:Hc.
  - rewrite matchRecords_none.
    + apply IH. intros d' r' ??. apply H; set_solver.
    + intros r' Hr'. specialize (H d r'). unfold accepts in H.
      rewrite Hc in H. apply H; set_solver.
  - apply IH. intros d' r' ??. apply H; set_solver.
Qed.

(** [match] returns the first record, in the order of the domains and
    of the records of a domain, that it accepts. *)
Lemma matchDomains_first question ds1 d ds2 rs1 r rs2 :
  dom_Records d = rs1 ++ r :: rs2 ->
  (forall d' r', d' ∈ ds1 -> r' ∈ dom_Records d' ->
                 accepts question d' r' = false) ->
  (forall r', r' ∈ rs1 -> accepts question d r' = false) ->
  accepts question d r = true ->
  matchDomains question (ds1 ++ d :: ds2) = Some r.
Proof.
  intros Hrs H1 H2 Hr. unfold accepts in Hr, H2.
  apply andb_true_iff in Hr as [Hc Hs].
  induction ds1 as [|d1 ds1 IH]; simpl app.
  - rewrite matchDomains_step, Hc, Hrs, matchRecords_first; [done| |done].
    intros r' Hr'. specialize (H2 r' Hr'). by rewrite Hc in H2.
  - rewrite matchDomains_step.
    destruct (candidate question d1) eqn:Hc1.
    + rewrite matchRecords_none.
      * apply IH. intros d' r' ??. apply H1; set_solver.
      * intros r' Hr'. specialize (H1 d1 r'). unfold accepts in H1.
        rewrite Hc1 in H1. apply H1; set_solver.
    + apply IH. intros d' r' ??. apply H1; set_solver.
Qed.

(** What [match] returns is a record of the configuration that it
    accepts. *)
Lemma matchDomains_accepts question ds r :
  matchDomains question ds = Some r ->
  exists d, d ∈ ds /\ r ∈ dom_Records d /\ accepts question d r = true.
Proof.
  induction ds as [|d ds IH]; [done|].
  rewrite matchDomains_step.
  destruct (candidate question d) eqn:Hc.
  - destruct (matchRecords question d (dom_Records d)) as [r0|] eqn:E.
    + intros [= ->]. exists d. split; [by left|].
      unfold accepts. rewrite Hc. simpl.
      clear -E. induction (dom_Records d) as [|r1 rs IHr]; [done|].
      rewrite matchRecords_step in E.
      destruct (selects question d r1) eqn:Hs.
      * injection E as ->. split; [by left | done].
      * destruct (IHr E). split; [by right | done].
    + intros H. destruct (IH H) as (d' & ? & ? & ?).
      exists d'. split; [by right | done].
  - intros H. destruct (IH H) as (d' & ? & ? & ?).
    exists d'. split; [by right | done].
Qed.

End matcher.

(** ** Wildcard records *)

Section wildcard.
Import strings strings_facts.

(** The full name of a record with a single token contains the suffix
    the record is compared with. *)
Lemma full_name_contains_suffix (domain : Domain) (r : Record_) :
  Count (rec_Name r) "*" = 1%nat ->
  Contains (rec_Name r +:+ "." +:+ dom_Name domain +:+ ".")
           (wildcardSuffix domain r) = true.
Proof.
  intros H. unfold wildcardSuffix.
  destruct (Split_one_token _ _ H) as (pre & post & -> & ->). simpl.
  rewrite app_assoc, app_String. apply Contains_app_l, Contains_String.
  apply Contains_refl.
Qed.

(** C3 (as amended).  For a record whose name contains the token, a
    question is a name match exactly when its name is the full name of
    the record or contains, anywhere, the suffix built from the piece
    of the record name after the token, a dot, the domain name and a
    dot; when the record name holds a single token, exactly when it
    contains that suffix; and a question that is no name match is never
    answered from the record: the scan goes on to the next one. *)
Theorem wildcard_name_match (question : dns.Question) (domain : Domain)
    (r : Record_) (rest : list Record_) :
  Contains (rec_Name r) "*" = true ->
  (nameMisses question domain r = false <->
     dns.q_Name question = rec_Name r +:+ "." +:+ dom_Name domain +:+ "."
     \/ Contains (dns.q_Name question) (wildcardSuffix domain r) = true)
  /\ (Count (rec_Name r) "*" = 1%nat ->
      (nameMisses question domain r = false <->
         Contains (dns.q_Name question) (wildcardSuffix domain r) = true))
  /\ (nameMisses question domain r = true ->
      matchRecords question domain (r :: rest)
      = matchRecords question domain rest).
Proof.
  intros Htok.
  assert (Hiff : nameMisses question domain r = false <->
     dns.q_Name question = rec_Name r +:+ "." +:+ dom_Name domain +:+ "."
     \/ Contains (dns.q_Name question) (wildcardSuffix domain r) = true).
  { unfold nameMisses. rewrite Htok. simpl.
    destruct (String.eqb_spec
                (rec_Name r +:+ "." +:+ dom_Name domain +:+ ".")
                (dns.q_Name question)) as [Heq|Hne]; simpl.
    - split; [intros _; by left | done].
    - destruct (Contains (dns.q_Name question) (wildcardSuffix domain r));
        simpl; split; try done; auto.
      intros [Heq|?]; [|done]. by destruct Hne. }
  split; [exact Hiff|]. split.
  - intros Hone. rewrite Hiff. split; [|by right].
    intros [->|?]; [|done]. by apply full_name_contains_suffix.
  - intros Hmiss. rewrite matchRecords_step. unfold selects.
    by rewrite Hmiss.
Qed.

(** The wildcard record of the specification answers
    ["foo.example.com."]. *)
Lemma wildcard_name_match_witness :
  nameMisses (dns.mkQuestion "foo.example.com." dns.TypeA dns.ClassINET)
             (Scenario.exampleDomain [Scenario.starRecord])
             Scenario.starRecord = false.
Proof.
  apply (proj1 (proj2 (wildcard_name_match
                 (dns.mkQuestion "foo.example.com." dns.TypeA dns.ClassINET)
                 (Scenario.exampleDomain [Scenario.starRecord])
                 Scenario.starRecord [] eq_refl)));
    reflexivity.
Defined.

(** C3 (as stated) fails.  For the record name ["a*b*c"] the code
    compares with the suffix ["b.example.com."], made of the second
    piece of the split.  The question for the full name of the record is
    answered from it although its name does not contain that suffix;
    and the question for ["xb.example.com."] is a name match although
    its name does not contain what follows the first token of the
    record name.  For the record name ["*"], the question for
    ["foo.example.com.evil."] is answered from the record: its name
    contains the suffix [".example.com."] and does not end with it. *)
Lemma wildcard_two_tokens_full_name :
  let domain := Scenario.exampleDomain [Scenario.twoTokens] in
  let full := dns.mkQuestion "a*b*c.example.com." dns.TypeA dns.ClassINET in
  let other := dns.mkQuestion "xb.example.com." dns.TypeA dns.ClassINET in
  let inner := dns.mkQuestion "foo.example.com.evil." dns.TypeA dns.ClassINET in
  (Contains (rec_Name Scenario.twoTokens) "*" = true
   /\ wildcardSuffix domain Scenario.twoTokens = "b.example.com."
   /\ Contains (dns.q_Name full) "b.example.com." = false
   /\ nameMisses full domain Scenario.twoTokens = false
   /\ match_ (Scenario.cfgOf [] [Scenario.twoTokens]) full
      = Some Scenario.twoTokens)
  /\ (Contains (dns.q_Name other) "b*c.example.com." = false
      /\ nameMisses other domain Scenario.twoTokens = false
      /\ match_ (Scenario.cfgOf [] [Scenario.twoTokens]) other
         = Some Scenario.twoTokens)
  /\ (wildcardSuffix (Scenario.exampleDomain [Scenario.starRecord])
                     Scenario.starRecord = ".example.com."
      /\ HasSuffix (dns.q_Name inner) ".example.com." = false
      /\ match_ (Scenario.cfgOf [] [Scenario.starRecord]) inner
         = Some Scenario.starRecord).
Proof. vm_compute. repeat split; reflexivity. Qed.

End wildcard.

(** ** The alias fallback *)

Section fallback.
Import strings.

(** C4 (as amended).  Let a CNAME record be a name match for a
    question whose type is one of the six supported types, in a domain
    whose name the question contains.  When the matcher accepts no
    record before it, in the order of the domains and of the records
    (no earlier name match of the requested type, and none of type
    CNAME), it returns that record, whatever the supported type
    asked for. *)
Theorem cname_fallback (cfg : Config) (question : dns.Question)
    (ds1 ds2 : list Domain) (d : Domain) (rs1 rs2 : list Record_)
    (r : Record_) :
  cfg_Domains cfg = ds1 ++ d :: ds2 ->
  dom_Records d = rs1 ++ r :: rs2 ->
  (forall d' r', d' ∈ ds1 -> r' ∈ dom_Records d' ->
                 accepts question d' r' = false) ->
  (forall r', r' ∈ rs1 -> accepts question d r' = false) ->
  Contains (dns.q_Name question) (dom_Name d) = true ->
  is_Some (typeMapRev !! dns.q_Qtype question) ->
  rec_Type r = "CNAME" ->
  nameMisses question d r = false ->
  match_ cfg question = Some r.
Proof.
  intros Hds Hrs H1 H2 Hdom Hsup Hty Hname.
  unfold match_. rewrite Hds.
  apply (matchDomains_first question ds1 d ds2 rs1 r rs2); try done.
  unfold accepts, candidate, selects.
  rewrite Hdom, Hname, Hty, bool_decide_eq_true_2 by done.
  change (typeMap !! "CNAME") with (Some dns.TypeCNAME).
  cbv beta iota. by rewrite Z.eqb_refl, orb_true_r.
Qed.

(** The alias of ["www.example.com."] answers a question for its
    address. *)
Lemma cname_fallback_witness :
  match_ (Scenario.cfgOf [] [Scenario.aliasRecord])
         (dns.mkQuestion "www.example.com." dns.TypeA dns.ClassINET)
  = Some Scenario.aliasRecord.
Proof.
  apply (cname_fallback
           (Scenario.cfgOf [] [Scenario.aliasRecord])
           (dns.mkQuestion "www.example.com." dns.TypeA dns.ClassINET)
           [] [] (Scenario.exampleDomain [Scenario.aliasRecord])
           [] [] Scenario.aliasRecord);
    try reflexivity.
  - intros d' r' Hd. inversion Hd.
  - intros r' Hr. inversion Hr.
  - apply typeMapRev_supported. left. reflexivity.
Defined.

(** C4 (as stated) fails.  For a query type outside the supported set:
    the alias is a name match for a question of type NS (2), no record
    stands before it, and the matcher reports no match.  And when an
    earlier alias is a name match too: the first one is returned, not
    the later one, although the first one is no exact-type match. *)
Lemma cname_fallback_unsupported_type :
  let domain := Scenario.exampleDomain [Scenario.aliasRecord] in
  let ns := dns.mkQuestion "www.example.com." 2 dns.ClassINET in
  let a := dns.mkQuestion "www.example.com." dns.TypeA dns.ClassINET in
  let star := mkRecord "*" "CNAME" "other.example.net" 60 0 in
  (rec_Type Scenario.aliasRecord = "CNAME"
   /\ nameMisses ns domain Scenario.aliasRecord = false
   /\ match_ (Scenario.cfgOf [] [Scenario.aliasRecord]) ns = None)
  /\ (nameMisses a (Scenario.exampleDomain [star; Scenario.aliasRecord])
                 Scenario.aliasRecord = false
      /\ typeMap !! rec_Type star <> Some (dns.q_Qtype a)
      /\ match_ (Scenario.cfgOf [] [star; Scenario.aliasRecord]) a
         = Some star).
Proof. vm_compute. repeat split; try reflexivity. discriminate. Qed.

End fallback.

(** ** The cache *)

Lemma add64_exact (a b : Z) :
  - 2 ^ 63 <= a + b < 2 ^ 63 -> add64 a b = a + b.
Proof.
  intros H. unfold add64, wrap64.
  rewrite Z.mod_small; lia.
Qed.

(** A sweep keeps exactly the entries that have not expired. *)
Lemma clearCache_lookup (now : Z) (cache : gmap string cacheItem) (key : string) :
  clearCache now cache !! key =
  match cache !! key with
  | Some v => if expire v <? now then None else Some v
  | None => None
  end.
Proof.
  unfold clearCache.
  set (f := fun (key : string) (v : cacheItem) (cache' : gmap string cacheItem) =>
              if expire v <? now then delete key cache' else cache').
  assert (H : forall (m b : gmap string cacheItem),
             map_fold f b m !! key =
             match m !! key with
             | Some v => if expire v <? now then None else b !! key
             | None => b !! key
             end).
  { intros m b. revert m.
    apply (map_fold_weak_ind
             (fun r (m : gmap string cacheItem) =>
                r !! key = match m !! key with
                           | Some v => if expire v <? now then None else b !! key
                           | None => b !! key
                           end)).
    - by rewrite lookup_empty.
    - intros i x m r Hi IH. unfold f at 1.
      destruct (decide (i = key)) as [->|Hne].
      + rewrite lookup_insert_eq. rewrite Hi in IH.
        destruct (expire x <? now); [by rewrite lookup_delete_eq | done].
      + rewrite lookup_insert_ne by done.
        destruct (expire x <? now); [by rewrite lookup_delete_ne | done]. }
  rewrite H. by destruct (cache !! key).
Qed.

Lemma clearCache_expired now cache key v :
  cache !! key = Some v -> expire v < now -> clearCache now cache !! key = None.
Proof.
  intros H Hlt. rewrite clearCache_lookup, H.
  by rewrite (proj2 (Z.ltb_lt _ _) Hlt).
Qed.

Lemma clearCache_fresh now cache key v :
  cache !! key = Some v -> now <= expire v ->
  clearCache now cache !! key = Some v.
Proof.
  intros H Hle. rewrite clearCache_lookup, H.
  by rewrite (proj2 (Z.ltb_ge _ _) Hle).
Qed.

Lemma clearCache_subset now cache key v :
  clearCache now cache !! key = Some v -> cache !! key = Some v.
Proof.
  rewrite clearCache_lookup. destruct (cache !! key) as [v'|]; [|done].
  by destruct (expire v' <? now).
Qed.

(** ** [src/handler.go]: the forwarder *)

Section forwarder.
Context {World Query : Type}.
Variable newQuery : string -> Z -> Query.
Variable Exchange : World -> Query -> string -> ExchangeResult * World.
Variable Now : World -> Z.
Variable ParseIP : string -> dns.IP.

Local Abbreviation exchangeServers := (Handler.exchangeServers Exchange Now).
Local Abbreviation resolve := (Handler.resolve newQuery Exchange Now).
Local Abbreviation failAll := (Handler.failAll Exchange).
Local Abbreviation stored := (Handler.stored Now).
Local Abbreviation synthesize := (Handler.synthesize ParseIP).
Local Abbreviation handleLocal := (Handler.handleLocal ParseIP).
Local Abbreviation serveQuestion :=
  (Handler.serveQuestion newQuery Exchange Now ParseIP).
Local Abbreviation ServeDNS := (Handler.ServeDNS newQuery Exchange Now ParseIP).
Local Abbreviation step := (Handler.step newQuery Exchange Now ParseIP).
Local Abbreviation run := (Handler.run newQuery Exchange Now ParseIP).
Local Abbreviation reachable := (Handler.reachable newQuery Exchange Now ParseIP).

(** The servers that fail with an error are passed over. *)
Lemma exchangeServers_failing m key failing rest cache w w1 :
  failAll m failing w = Some w1 ->
  exchangeServers m key (failing ++ rest) cache w
  = exchangeServers m key rest cache w1.
Proof.
  revert w. induction failing as [|server failing IH]; intros w; simpl.
  - by intros [= ->].
  - destruct (Exchange w m server) as [[e|Answer] w']; [|done].
    apply IH.
Qed.

(** The loop over the servers writes the cache only to store, under
    its key, the answer it returns, and only when that answer holds a
    record. *)
Lemma exchangeServers_cache m key servers cache w answers cache' w' :
  exchangeServers m key servers cache w = (answers, cache', w') ->
  cache' = match stored w' answers with
           | Some item => <[key := item]> cache
           | None => cache
           end.
Proof.
  revert w. induction servers as [|server servers IH]; intros w; simpl.
  - by intros [= <- <- <-].
  - destruct (Exchange w m server) as [[e|Answer] w1]; [apply IH|].
    destruct Answer as [|first more]; by intros [= <- <- <-].
Qed.

Lemma resolve_cache cfg domain qtype cache w answers cache' w' :
  resolve cfg domain qtype cache w = (answers, cache', w') ->
  cache' = cache
  \/ cache !! cacheKey domain qtype = None
     /\ exists item, stored w' answers = Some item
                     /\ cache' = <[cacheKey domain qtype := item]> cache.
Proof.
  unfold Handler.resolve.
  destruct (cache !! cacheKey domain qtype) as [v|] eqn:E.
  - intros [= <- <- <-]. by left.
  - intros H. apply exchangeServers_cache in H.
    destruct (stored w' answers) as [item|]; [right | by left].
    split; [done|]. by exists item.
Qed.

(** C2 (as amended).  On a cache miss the forwarder asks the servers
    in the order of the configuration; an exchange that fails with an
    error makes it ask the next server; the first server whose
    exchange does not fail decides the result, which is that server's
    answer section whether it holds a record or not.  If the first
    [k] servers fail with an error and the next one replies, the
    result is that reply, and it is stored under the key of the
    question when it holds at least one record (an empty answer is
    returned as it is and nothing is stored). *)
Theorem resolve_failover (cfg : Config) (domain : string) (qtype : Z)
    (cache : gmap string cacheItem) (w w1 w2 : World)
    (failing rest : list string) (server : string) (Answer : list dns.RR) :
  cache !! cacheKey domain qtype = None ->
  cfg_Servers cfg = failing ++ server :: rest ->
  failAll (newQuery domain qtype) failing w = Some w1 ->
  Exchange w1 (newQuery domain qtype) server = (ExchangeReply Answer, w2) ->
  resolve cfg domain qtype cache w =
  (Answer,
   match Answer with
   | first :: _ =>
       <[cacheKey domain qtype :=
           mkCacheItem (add64 (Now w2) (dns.hdr_Ttl (dns.Header first)))
                       Answer]> cache
   | [] => cache
   end,
   w2).
Proof.
  intros Hmiss Hservers Hfail Hreply.
  unfold Handler.resolve. rewrite Hmiss, Hservers.
  rewrite (exchangeServers_failing _ _ _ _ _ _ _ Hfail).
  simpl. rewrite Hreply. by destruct Answer.
Qed.

(** When every server fails with an error the result is empty and the
    cache is left as it was. *)
Lemma resolve_exhausted cfg domain qtype cache w w1 :
  cache !! cacheKey domain qtype = None ->
  failAll (newQuery domain qtype) (cfg_Servers cfg) w = Some w1 ->
  resolve cfg domain qtype cache w = ([], cache, w1).
Proof.
  intros Hmiss Hfail. unfold Handler.resolve. rewrite Hmiss.
  rewrite <- (app_nil_r (cfg_Servers cfg)).
  by rewrite (exchangeServers_failing _ _ _ _ _ _ _ Hfail).
Qed.

(** Whenever [resolve] stores an entry (the cache holds, after the
    call, an entry it did not hold before), the entry holds the answer
    returned, which is not empty, and its expiry is the time read at
    the store plus the TTL of the first record of the answer, in the
    arithmetic of [int64]. *)
Lemma resolve_store_expiry (cfg : Config) (domain : string) (qtype : Z)
    (cache cache' : gmap string cacheItem) (w w' : World)
    (answers : list dns.RR) (key : string) (item : cacheItem) :
  resolve cfg domain qtype cache w = (answers, cache', w') ->
  cache' !! key = Some item ->
  cache !! key <> Some item ->
  exists first more,
    value item = first :: more
    /\ answers = first :: more
    /\ expire item = add64 (Now w') (dns.hdr_Ttl (dns.Header first))
    /\ (- 2 ^ 63 <= Now w' + dns.hdr_Ttl (dns.Header first) < 2 ^ 63 ->
        expire item = Now w' + dns.hdr_Ttl (dns.Header first)).
Proof.
  intros Hres Hnew Hold.
  destruct (resolve_cache _ _ _ _ _ _ _ _ Hres)
    as [->|(Hmiss & item' & Hst & ->)]; [done|].
  destruct (decide (cacheKey domain qtype = key)) as [<-|Hne].
  - rewrite lookup_insert_eq in Hnew. injection Hnew as <-.
    destruct answers as [|first more]; [done|].
    injection Hst as <-. exists first, more. simpl.
    repeat split; try done. apply add64_exact.
  - by rewrite lookup_insert_ne in Hnew.
Qed.

(** *** The orchestrator and the cache *)

Lemma extends_refl cache : extends cache cache.
Proof. split; [done | by left]. Qed.

Lemma extends_trans c1 c2 c3 : extends c1 c2 -> extends c2 c3 -> extends c1 c3.
Proof.
  intros [K12 N12] [K23 N23]. split; [by eauto|].
  intros key item H3. destruct (N23 _ _ H3) as [H2|?]; by eauto.
Qed.

Lemma resolve_extends cfg domain qtype cache w answers cache' w' :
  resolve cfg domain qtype cache w = (answers, cache', w') ->
  extends cache cache'.
Proof.
  intros Hres.
  destruct (resolve_cache _ _ _ _ _ _ _ _ Hres)
    as [->|(Hmiss & item & Hst & ->)]; [apply extends_refl|].
  split; intros key item'.
  - intros H. rewrite lookup_insert_ne; [done|]. by intros <-; simplify_eq.
  - destruct (decide (cacheKey domain qtype = key)) as [<-|Hne].
    + rewrite lookup_insert_eq. intros [= <-]. right.
      destruct answers; [done|]. by injection Hst as <-.
    + rewrite lookup_insert_ne by done. by left.
Qed.

(** In this file [handleLocal] reports [false] on every path, so the
    loop over the questions never skips the forwarder. *)
Lemma handleLocal_false cfg question answer :
  (handleLocal cfg question answer).2 = false.
Proof. unfold Handler.handleLocal. by destruct (match_ cfg question). Qed.

Lemma serveQuestion_eq cfg question answer cache w :
  serveQuestion cfg (answer, cache, w) question =
  let '(answers, cache1, w1) :=
    resolve cfg (dns.q_Name question) (dns.q_Qtype question) cache w in
  ((handleLocal cfg question answer).1 ++ answers, cache1, w1).
Proof.
  unfold Handler.serveQuestion.
  pose proof (handleLocal_false cfg question answer) as H.
  destruct (handleLocal cfg question answer) as [answer1 b].
  simpl in H. by rewrite H.
Qed.

(** For a question the matcher matches, the reply gets the record
    synthesized for it and then whatever the forwarder returns. *)
Lemma serveQuestion_matched cfg question r answer cache w :
  match_ cfg question = Some r ->
  serveQuestion cfg (answer, cache, w) question =
  let '(answers, cache1, w1) :=
    resolve cfg (dns.q_Name question) (dns.q_Qtype question) cache w in
  ((answer ++ synthesize question r) ++ answers, cache1, w1).
Proof.
  intros H. rewrite serveQuestion_eq.
  unfold Handler.handleLocal. by rewrite H.
Qed.

Lemma serveQuestion_extends cfg question answer cache w answer' cache' w' :
  serveQuestion cfg (answer, cache, w) question = (answer', cache', w') ->
  extends cache cache'.
Proof.
  rewrite serveQuestion_eq.
  destruct (resolve cfg (dns.q_Name question) (dns.q_Qtype question) cache w)
    as [[answers cache1] w1] eqn:E.
  intros [= _ <- _]. by eapply resolve_extends.
Qed.

Lemma fold_serveQuestion_extends cfg questions st :
  extends st.1.2 (fold_left (serveQuestion cfg) questions st).1.2.
Proof.
  revert st. induction questions as [|question questions IH]; intros st.
  - apply extends_refl.
  - change (fold_left (serveQuestion cfg) (question :: questions) st)
      with (fold_left (serveQuestion cfg) questions
              (serveQuestion cfg st question)).
    eapply extends_trans; [|apply IH].
    destruct st as [[answer cache] w].
    destruct (serveQuestion cfg (answer, cache, w) question)
      as [[answer1 cache1] w1] eqn:E.
    by apply serveQuestion_extends in E.
Qed.

Lemma ServeDNS_extends cfg questions cache w :
  extends cache (ServeDNS cfg questions cache w).1.2.
Proof.
  unfold Handler.ServeDNS.
  pose proof (fold_serveQuestion_extends cfg questions ([], cache, w)) as H.
  by destruct (fold_left (serveQuestion cfg) questions ([], cache, w))
    as [[answer1 cache1] w1].
Qed.

(** *** The life of an entry *)

Lemma step_keeps cfg cache ev key item :
  cache !! key = Some item ->
  Handler.notAfter (World := World) (expire item) ev ->
  step cfg cache ev !! key = Some item.
Proof.
  intros H Hev. destruct ev as [questions w|now]; simpl in *.
  - by apply (ServeDNS_extends cfg questions cache w).
  - by apply clearCache_fresh.
Qed.

Lemma run_keeps cfg evs cache key item :
  cache !! key = Some item ->
  Forall (Handler.notAfter (expire item)) evs ->
  run cfg evs cache !! key = Some item.
Proof.
  revert cache. induction evs as [|ev evs IH]; intros cache H Hevs; [done|].
  inversion Hevs as [|? ? Hev Hevs']; subst.
  apply IH; [|done]. by apply step_keeps.
Qed.

Lemma resolve_hit cfg domain qtype cache w item :
  cache !! cacheKey domain qtype = Some item ->
  resolve cfg domain qtype cache w = (value item, cache, w).
Proof. intros H. unfold Handler.resolve. by rewrite H. Qed.

Lemma resolve_miss cfg domain qtype cache w :
  cache !! cacheKey domain qtype = None ->
  resolve cfg domain qtype cache w =
  exchangeServers (newQuery domain qtype) (cacheKey domain qtype)
                  (cfg_Servers cfg) cache w.
Proof. intros H. unfold Handler.resolve. by rewrite H. Qed.

(** C6.  Let [resolve] miss and store the answer it gets, at the time
    [T] it reads at the store and with the TTL [t] of the first record
    (the sum being in the range of [int64]).  Whatever queries are
    served and whatever sweeps run afterwards at times up to [T + t], a
    read of the key returns the stored answer unchanged, without any
    exchange and without looking at the clock; and right after a sweep
    that runs at a time after [T + t] the entry is gone and the read is
    a miss, which sends the question to the servers. *)
Theorem cache_round_trip (cfg : Config) (domain : string) (qtype : Z)
    (cache cache' : gmap string cacheItem) (w w' w2 : World)
    (first : dns.RR) (more : list dns.RR) (evs : list Handler.event) :
  cache !! cacheKey domain qtype = None ->
  resolve cfg domain qtype cache w = (first :: more, cache', w') ->
  let T := Now w' in
  let t := dns.hdr_Ttl (dns.Header first) in
  - 2 ^ 63 <= T + t < 2 ^ 63 ->
  Forall (Handler.notAfter (T + t)) evs ->
  let key := cacheKey domain qtype in
  let later := run cfg evs cache' in
  cache' !! key = Some (mkCacheItem (T + t) (first :: more))
  /\ resolve cfg domain qtype later w2 = (first :: more, later, w2)
  /\ forall now, T + t < now ->
       clearCache now later !! key = None
       /\ resolve cfg domain qtype (clearCache now later) w2 =
          exchangeServers (newQuery domain qtype) key (cfg_Servers cfg)
                          (clearCache now later) w2.
Proof.
  intros Hmiss Hres T t Hrange Hevs key later.
  rewrite (resolve_miss _ _ _ _ _ Hmiss) in Hres.
  apply exchangeServers_cache in Hres. simpl in Hres.
  fold T t key in Hres. rewrite add64_exact in Hres by done.
  assert (Hs : cache' !! key = Some (mkCacheItem (T + t) (first :: more))).
  { rewrite Hres. apply lookup_insert_eq. }
  assert (Hl : later !! key = Some (mkCacheItem (T + t) (first :: more))).
  { by apply run_keeps. }
  split; [exact Hs|]. split.
  - by rewrite (resolve_hit _ _ _ _ _ _ Hl).
  - intros now Hnow.
    assert (Hgone : clearCache now later !! key = None)
      by (by eapply clearCache_expired).
    split; [done|]. by apply resolve_miss.
Qed.

(** *** The entries of the cache hold records *)

Lemma step_nonempty cfg cache ev : nonempty cache -> nonempty (step cfg cache ev).
Proof.
  intros H key item Hk. destruct ev as [questions w|now]; simpl in Hk.
  - destruct (ServeDNS_extends cfg questions cache w) as [_ Hnew].
    destruct (Hnew _ _ Hk); by eauto.
  - apply clearCache_subset in Hk. by eauto.
Qed.

Lemma run_nonempty cfg evs cache : nonempty cache -> nonempty (run cfg evs cache).
Proof.
  revert cache. induction evs as [|ev evs IH]; intros cache H; [done|].
  apply IH. by apply step_nonempty.
Qed.

(** Every entry of a cache the program can reach holds at least one
    record, so a read that hits returns at least one record. *)
Lemma handler_cache_nonempty (cfg : Config) (cache : gmap string cacheItem) :
  reachable cfg cache ->
  (forall key item, cache !! key = Some item -> value item <> [])
  /\ (forall domain qtype w,
        is_Some (cache !! cacheKey domain qtype) ->
        (resolve cfg domain qtype cache w).1.1 <> []).
Proof.
  intros [evs <-].
  assert (H : nonempty (run cfg evs ∅)).
  { apply run_nonempty. intros key item. by rewrite lookup_empty. }
  split; [exact H|].
  intros domain qtype w [item Hitem].
  rewrite (resolve_hit _ _ _ _ _ _ Hitem). simpl. by eapply H.
Qed.

End forwarder.

(** ** [src/handler.go]: the synthesizer *)

Section synthesizer.
Import strings strings_facts.
Variable ParseIP : string -> dns.IP.

Local Abbreviation synthesize := (Handler.synthesize ParseIP).
Local Abbreviation handleLocal := (Handler.handleLocal ParseIP).

Lemma handleLocal_matched cfg question r answer :
  match_ cfg question = Some r ->
  handleLocal cfg question answer = (answer ++ synthesize question r, false).
Proof. intros H. unfold Handler.handleLocal. by rewrite H. Qed.

(** The full name of a record contains the name of its domain. *)
Lemma full_name_contains_domain (name domain : string) :
  Contains (name +:+ "." +:+ domain +:+ ".") domain = true.
Proof.
  apply Contains_app_l.
  change ("." +:+ domain +:+ ".") with (String "." (domain +:+ ".")).
  apply Contains_String, Contains_prefix.
Qed.

(** The matcher accepts a record for the question of its full name
    and its type. *)
Lemma accepts_exact question d r :
  dns.q_Name question = rec_Name r +:+ "." +:+ dom_Name d +:+ "." ->
  typeMap !! rec_Type r = Some (dns.q_Qtype question) ->
  accepts question d r = true.
Proof.
  intros Hname Hty. unfold accepts, candidate, selects, nameMisses.
  rewrite Hname, full_name_contains_domain, String.eqb_refl, Hty.
  rewrite bool_decide_eq_true_2 by (by eapply typeMap_supported).
  simpl. by rewrite Z.eqb_refl.
Qed.

(** C5 (as amended).  Take a configured record and the question for
    its full name and its type, and let the matcher accept no record
    before it.  Then the matcher returns the record and [handleLocal]
    adds to the reply what the synthesizer makes of it, which is, for
    the types A, AAAA, MX and CNAME, a single record of the type with
    the name of the question, the class IN, the configured TTL and the
    configured value (parsed as an address, taken as the exchange with
    the configured preference, or made the target with one final dot);
    for the type HTTPS it is a single HTTPS record with the ALPN list
    of the value split on commas. *)
Theorem exact_record_answer (cfg : Config) (question : dns.Question)
    (ds1 ds2 : list Domain) (d : Domain) (rs1 rs2 : list Record_)
    (r : Record_) (answer : list dns.RR) :
  cfg_Domains cfg = ds1 ++ d :: ds2 ->
  dom_Records d = rs1 ++ r :: rs2 ->
  (forall d' r', d' ∈ ds1 -> r' ∈ dom_Records d' ->
                 accepts question d' r' = false) ->
  (forall r', r' ∈ rs1 -> accepts question d r' = false) ->
  dns.q_Name question = rec_Name r +:+ "." +:+ dom_Name d +:+ "." ->
  typeMap !! rec_Type r = Some (dns.q_Qtype question) ->
  let hdr := dns.mkHeader (dns.q_Name question) (dns.q_Qtype question)
                          dns.ClassINET (rec_TTL r) in
  match_ cfg question = Some r
  /\ (handleLocal cfg question answer).1 = answer ++ synthesize question r
  /\ (dns.q_Qtype question = dns.TypeA ->
      synthesize question r = [dns.A hdr (ParseIP (rec_Value r))])
  /\ (dns.q_Qtype question = dns.TypeAAAA ->
      synthesize question r = [dns.AAAA hdr (ParseIP (rec_Value r))])
  /\ (dns.q_Qtype question = dns.TypeMX ->
      synthesize question r = [dns.MX hdr (rec_Preference r) (rec_Value r)])
  /\ (dns.q_Qtype question = dns.TypeCNAME ->
      synthesize question r =
      [dns.CNAME hdr (TrimSuffix (rec_Value r) "." +:+ ".")])
  /\ (dns.q_Qtype question = dns.TypeHTTPS ->
      exists hdr',
        synthesize question r =
        [dns.HTTPS hdr' [dns.SVCBAlpn (Split (rec_Value r) ",")]]).
Proof.
  intros Hds Hrs H1 H2 Hname Hty hdr.
  assert (Hm : match_ cfg question = Some r).
  { unfold match_. rewrite Hds.
    apply (matchDomains_first question ds1 d ds2 rs1 r rs2); try done.
    by apply accepts_exact. }
  split; [exact Hm|]. split; [by rewrite (handleLocal_matched _ _ _ _ Hm)|].
  unfold hdr, Handler.synthesize. rewrite Hty. simpl.
  repeat split; intros ->; try reflexivity.
  eexists. reflexivity.
Qed.

(** C9 (as amended).  For a matched record of type A or AAAA whose
    value is no address, nothing fails: [handleLocal] adds to the reply
    one address record of the type, with the name of the question, the
    configured TTL and no address ([nil]), and goes on. *)
Theorem unparsable_address_answer (cfg : Config) (question : dns.Question)
    (r : Record_) (answer : list dns.RR) :
  match_ cfg question = Some r ->
  ParseIP (rec_Value r) = [] ->
  (rec_Type r = "A" ->
   handleLocal cfg question answer =
   (answer ++ [dns.A (dns.mkHeader (dns.q_Name question) dns.TypeA
                                   dns.ClassINET (rec_TTL r)) []], false))
  /\ (rec_Type r = "AAAA" ->
      handleLocal cfg question answer =
      (answer ++ [dns.AAAA (dns.mkHeader (dns.q_Name question) dns.TypeAAAA
                                         dns.ClassINET (rec_TTL r)) []],
       false)).
Proof.
  intros Hm Hip.
  rewrite (handleLocal_matched _ _ _ _ Hm). unfold Handler.synthesize.
  split; intros ->; simpl; by rewrite Hip.
Qed.

End synthesizer.

(** ** The code run on the scenarios *)

Section scenarios.
Import Scenario.

Local Abbreviation question_www :=
  (dns.mkQuestion "www.example.com." dns.TypeA dns.ClassINET).

(** C1 (fails in [src/handler.go]).  The question for the address of
    ["www.example.com."] is matched by the record of the configuration
    of the specification, and yet the forwarder is invoked for it: the
    reply
    holds the record synthesized for the match and, after it, the
    answer of the server, which was contacted and whose answer was
    stored in the cache. *)
Theorem local_match_is_forwarded_too :
  match_ exampleCfg question_www = Some (mkRecord "www" "A" "1.2.3.4" 300 0)
  /\ let '(msg, cache, w) := ServeDNS exampleCfg [question_www] ∅ w0 in
     Answer msg =
     [ dns.A (dns.mkHeader "www.example.com." dns.TypeA dns.ClassINET 300)
             [0; 0; 0; 0; 0; 0; 0; 0; 0; 0; 255; 255; 1; 2; 3; 4];
       dns.A (dns.mkHeader "www.example.com." dns.TypeA dns.ClassINET 60)
             [0; 0; 0; 0; 0; 0; 0; 0; 0; 0; 255; 255; 93; 184; 216; 34] ]
     /\ contacted w = ["8.8.8.8:53"]
     /\ cache !! "www.example.com.-1"
        = Some (mkCacheItem 1700000061 (upstreamAnswer "www.example.com.")).
Proof. vm_compute. repeat split; reflexivity. Qed.

(** Two servers time out and the third one answers. *)
Lemma resolve_failover_witness :
  Handler.resolve newQuery Exchange Now
    (cfgOf ["10.0.0.1:53"; "10.0.0.2:53"; "8.8.8.8:53"] [])
    "example.org." dns.TypeA ∅ w0
  = (upstreamAnswer "example.org.",
     <["example.org.-1" :=
         mkCacheItem 1700000063 (upstreamAnswer "example.org.")]> ∅,
     mkWorld 1700000003 ["8.8.8.8:53"; "10.0.0.2:53"; "10.0.0.1:53"]).
Proof.
  apply (resolve_failover newQuery Exchange Now
           (cfgOf ["10.0.0.1:53"; "10.0.0.2:53"; "8.8.8.8:53"] [])
           "example.org." dns.TypeA ∅ w0
           (mkWorld 1700000002 ["10.0.0.2:53"; "10.0.0.1:53"])
           (mkWorld 1700000003 ["8.8.8.8:53"; "10.0.0.2:53"; "10.0.0.1:53"])
           ["10.0.0.1:53"; "10.0.0.2:53"] [] "8.8.8.8:53"
           (upstreamAnswer "example.org."));
    reflexivity.
Defined.

(** C2 (as stated) fails when a server replies without an error and
    with an empty answer section: the forwarder returns the empty
    answer and stores nothing, and the next server, which would have
    answered with a record, is not asked. *)
Lemma resolve_stops_at_empty_answer :
  let cfg := cfgOf ["9.9.9.9:53"; "8.8.8.8:53"] [] in
  (Exchange w0 (newQuery "example.org." dns.TypeA) "9.9.9.9:53").1
  = ExchangeReply []
  /\ (forall w, (Exchange w (newQuery "example.org." dns.TypeA)
                         "8.8.8.8:53").1
                = ExchangeReply (upstreamAnswer "example.org."))
  /\ resolve cfg "example.org." dns.TypeA ∅ w0
     = ([], ∅, mkWorld 1700000001 ["9.9.9.9:53"]).
Proof. vm_compute. repeat split; reflexivity. Qed.

(** The concrete scenario of the specification: a single A record,
    address 1.2.3.4, TTL 300, is what [handleLocal] adds. *)
Lemma exact_record_answer_witness :
  (handleLocal exampleCfg question_www []).1 =
  [ dns.A (dns.mkHeader "www.example.com." dns.TypeA dns.ClassINET 300)
          [0; 0; 0; 0; 0; 0; 0; 0; 0; 0; 255; 255; 1; 2; 3; 4] ].
Proof.
  pose proof (exact_record_answer ParseIP exampleCfg question_www
                [] [] (mkDomain "example.com" [mkRecord "www" "A" "1.2.3.4" 300 0])
                [] [] (mkRecord "www" "A" "1.2.3.4" 300 0) []
                eq_refl eq_refl
                ltac:(intros d' r' Hd; inversion Hd)
                ltac:(intros r' Hr; inversion Hr)
                eq_refl eq_refl) as H.
  cbv zeta in H. destruct H as (_ & Hlocal & HA & _).
  unfold handleLocal. rewrite Hlocal, HA by reflexivity. reflexivity.
Defined.

(** C5 (as stated) fails.  For the type TXT, which is in the supported
    set: the matcher returns the text record for the question of its
    full name and its type, and no record is synthesized for it.  And
    for an address record that stands after the wildcard record: the
    question for its full name and its type is answered from the
    wildcard record, with the address and the TTL of that one. *)
Lemma exact_record_txt_unanswered :
  let txt := dns.mkQuestion "txt.example.com." dns.TypeTXT dns.ClassINET in
  (typeMap !! rec_Type textRecord = Some dns.TypeTXT
   /\ match_ (cfgOf [] [textRecord]) txt = Some textRecord
   /\ (handleLocal (cfgOf [] [textRecord]) txt []).1 = [])
  /\ (match_ (cfgOf [] [starRecord; wwwRecord]) question_www = Some starRecord
      /\ (handleLocal (cfgOf [] [starRecord; wwwRecord]) question_www []).1
         = [ dns.A (dns.mkHeader "www.example.com." dns.TypeA dns.ClassINET 60)
                   [0; 0; 0; 0; 0; 0; 0; 0; 0; 0; 255; 255; 5; 6; 7; 8] ]).
Proof. vm_compute. repeat split; reflexivity. Qed.

(** The HTTPS record is the one record the synthesizer builds without
    the name of the question and without the configured TTL. *)
Example https_answer_header :
  (handleLocal (cfgOf [] [httpsRecord])
               (dns.mkQuestion "svc.example.com." dns.TypeHTTPS dns.ClassINET)
               []).1
  = [ dns.HTTPS (dns.mkHeader "." dns.TypeHTTPS dns.ClassINET 0)
                [dns.SVCBAlpn ["h2"; "http/1.1"]] ].
Proof. vm_compute. reflexivity. Qed.

(** An answer stored at 1700000001 for 60 seconds is read unchanged
    after a sweep, a served query and a sweep at its last second. *)
Lemma cache_round_trip_witness :
  let later :=
    Handler.run newQuery Exchange Now ParseIP exampleCfg
      [Handler.Sweep 1700000010; Handler.Serve [question_www] w0;
       Handler.Sweep 1700000061]
      (<["example.org.-1" :=
           mkCacheItem 1700000061 (upstreamAnswer "example.org.")]> ∅) in
  resolve exampleCfg "example.org." dns.TypeA later w0
  = (upstreamAnswer "example.org.", later, w0).
Proof.
  apply (proj1 (proj2 (cache_round_trip newQuery Exchange Now ParseIP
                  exampleCfg "example.org." dns.TypeA ∅
                  (<["example.org.-1" :=
                       mkCacheItem 1700000061 (upstreamAnswer "example.org.")]> ∅)
                  w0 (mkWorld 1700000001 ["8.8.8.8:53"]) w0
                  (dns.A (dns.mkHeader "example.org." dns.TypeA dns.ClassINET 60)
                         [0; 0; 0; 0; 0; 0; 0; 0; 0; 0; 255; 255; 93; 184; 216; 34])
                  []
                  [Handler.Sweep 1700000010; Handler.Serve [question_www] w0;
                   Handler.Sweep 1700000061]
                  ltac:(apply lookup_empty) ltac:(vm_compute; reflexivity)
                  ltac:(simpl; lia)
                  ltac:(repeat constructor; simpl; lia)))).
Defined.

(** The address record whose value is no address. *)
Lemma unparsable_address_answer_witness :
  handleLocal (cfgOf [] [badRecord])
              (dns.mkQuestion "bad.example.com." dns.TypeA dns.ClassINET) []
  = ([ dns.A (dns.mkHeader "bad.example.com." dns.TypeA dns.ClassINET 300)
             [] ], false).
Proof.
  apply (proj1 (unparsable_address_answer ParseIP (cfgOf [] [badRecord])
                  (dns.mkQuestion "bad.example.com." dns.TypeA dns.ClassINET)
                  badRecord [] eq_refl eq_refl) eq_refl).
Defined.

(** C9 (as stated) fails: the value ["not-an-ip"] is no address, the
    record is matched, and the question is answered with a record,
    one that carries no address. *)
Lemma unparsable_address_is_answered :
  let cfg := cfgOf [] [badRecord] in
  let question := dns.mkQuestion "bad.example.com." dns.TypeA dns.ClassINET in
  ParseIP (rec_Value badRecord) = []
  /\ match_ cfg question = Some badRecord
  /\ (handleLocal cfg question []).1
     = [ dns.A (dns.mkHeader "bad.example.com." dns.TypeA dns.ClassINET 300)
               [] ]
  /\ (handleLocal cfg question []).1 <> [].
Proof. vm_compute. repeat split; try reflexivity. discriminate. Qed.

End scenarios.

(** ** [src/unnamed/part_002]: the health monitor *)

Section monitor.
Context {World Query : Type}.
Variable probeQuery : Query.
Variable Exchange : World -> Query -> string -> ExchangeResult * World.
Variable Now : World -> Z.

Local Abbreviation probe := (Watch.probe probeQuery Exchange Now).
Local Abbreviation answered := Watch.answered.
Local Abbreviation countersInRange := (Watch.countersInRange (World := World)).


(** The counter stays between 0 and 21 in every state [watch] reaches:
    it never wraps, and an endpoint whose counter has reached 21 keeps
    it for ever. *)
Lemma probe_countersInRange st i :
  countersInRange st -> countersInRange (probe st i).
Proof.
  destruct st as [[upstreams alive] w]. unfold Watch.countersInRange. simpl.
  intros H. unfold Watch.probe.
  destruct (upstreams !! i) as [up|] eqn:Hup; [|done].
  pose proof (Forall_lookup_1 _ _ _ _ H Hup) as Hr. simpl in Hr.
  destruct (Watch.IsDead up) eqn:Hdead; [done|].
  unfold Watch.IsDead in Hdead. apply Z.ltb_ge in Hdead.
  destruct (Exchange w probeQuery (Watch.server up)) as [res w1].
  destruct (answered res); simpl; apply Forall_insert; try done; simpl.
  rewrite add64_exact; lia.
Qed.

Lemma loop_countersInRange st :
  countersInRange st ->
  countersInRange (Watch.loop probeQuery Exchange Now st).
Proof.
  destruct st as [[upstreams alive] w]. unfold Watch.loop.
  generalize (seq 0 (length upstreams)) as indices.
  generalize (upstreams, alive, w) as st. clear.
  intros st indices. revert st.
  induction indices as [|i indices IH]; intros st H; [done|].
  simpl. by apply IH, probe_countersInRange.
Qed.

Lemma watch_countersInRange pause n cfg w :
  countersInRange
    (Watch.watch probeQuery Exchange Now pause n (Watch.watchInit cfg w)).
Proof.
  assert (H0 : countersInRange (Watch.watchInit cfg w)).
  { unfold Watch.countersInRange, Watch.watchInit. simpl.
    apply Forall_fmap, Forall_forall. intros server _. simpl. lia. }
  revert H0. generalize (Watch.watchInit cfg w) as st.
  induction n as [|n IH]; intros st H; [done|].
  simpl. pose proof (loop_countersInRange st H) as Hl.
  destruct (Watch.loop probeQuery Exchange Now st) as [[upstreams alive] w1].
  by apply IH.
Qed.

End monitor.

(** ** [src/unnamed/part_002]: the orchestrator and the cache *)

Section watch_cache.
Context {World Query : Type}.
Variable newQuery : string -> Z -> Query.
Variable Exchange : World -> Query -> string -> ExchangeResult * World.
Variable Now : World -> Z.
Variable ParseIP : string -> dns.IP.
Variable Range : gmap string nat -> list (string * nat).

Local Abbreviation serveQuestion :=
  (Watch.serveQuestion newQuery Exchange Now ParseIP Range).
Local Abbreviation ServeDNS :=
  (Watch.ServeDNS newQuery Exchange Now ParseIP Range).
Local Abbreviation step := (Watch.step newQuery Exchange Now ParseIP Range).
Local Abbreviation run := (Watch.run newQuery Exchange Now ParseIP Range).

(** In this revision the store is in the loop over the questions; it
    writes, under the key of the question, the answer to the question
    when that answer holds a record. *)
Lemma watch_serveQuestion_cache cfg upstreams alive question
    answer cache w answer' cache' w' :
  serveQuestion cfg upstreams alive (answer, cache, w) question
  = (answer', cache', w') ->
  cache' = cache
  \/ exists first more,
       cache' =
       <[cacheKey (dns.q_Name question) (dns.q_Qtype question) :=
           mkCacheItem (add64 (Now w') (dns.hdr_Ttl (dns.Header first)))
                       (first :: more)]> cache.
Proof.
  unfold Watch.serveQuestion.
  destruct (value <$> cache !! cacheKey (dns.q_Name question)
                                        (dns.q_Qtype question))
    as [[|? ?]|].
  2: { intros [= _ <- _]. by left. }
  all: destruct (Watch.handleLocal ParseIP cfg question) as [local [|]];
    [|destruct (Watch.resolve newQuery Exchange Range upstreams alive
                  (dns.q_Name question) (dns.q_Qtype question) w)
        as [answers w1]];
    [destruct local as [|first more] | destruct answers as [|first more]];
    intros [= _ <- <-]; first [by left | right; by exists first, more].
Qed.

Lemma watch_store_expiry cfg upstreams alive question
    answer cache w answer' cache' w' key item :
  serveQuestion cfg upstreams alive (answer, cache, w) question
  = (answer', cache', w') ->
  cache' !! key = Some item ->
  cache !! key <> Some item ->
  exists first more,
    value item = first :: more
    /\ expire item = add64 (Now w') (dns.hdr_Ttl (dns.Header first))
    /\ (- 2 ^ 63 <= Now w' + dns.hdr_Ttl (dns.Header first) < 2 ^ 63 ->
        expire item = Now w' + dns.hdr_Ttl (dns.Header first)).
Proof.
  intros Hs Hnew Hold.
  destruct (watch_serveQuestion_cache _ _ _ _ _ _ _ _ _ _ Hs)
    as [->|(first & more & ->)]; [done|].
  destruct (decide (cacheKey (dns.q_Name question) (dns.q_Qtype question)
                    = key)) as [<-|Hne].
  - rewrite lookup_insert_eq in Hnew. injection Hnew as <-.
    exists first, more. simpl. repeat split; try done. apply add64_exact.
  - by rewrite lookup_insert_ne in Hnew.
Qed.

Lemma watch_serveQuestion_nonempty cfg upstreams alive question st :
  nonempty st.1.2 ->
  nonempty (serveQuestion cfg upstreams alive st question).1.2.
Proof.
  destruct st as [[answer cache] w]. intros H. change (nonempty cache) in H.
  destruct (serveQuestion cfg upstreams alive (answer, cache, w) question)
    as [[answer' cache'] w'] eqn:E.
  change (nonempty cache').
  destruct (watch_serveQuestion_cache _ _ _ _ _ _ _ _ _ _ E)
    as [->|(first & more & ->)]; [done|].
  intros key item.
  destruct (decide (cacheKey (dns.q_Name question) (dns.q_Qtype question)
                    = key)) as [<-|Hne].
  - rewrite lookup_insert_eq. by intros [= <-].
  - rewrite lookup_insert_ne by done. apply H.
Qed.

Lemma watch_ServeDNS_nonempty cfg upstreams alive questions cache w :
  nonempty cache ->
  nonempty (ServeDNS cfg upstreams alive questions cache w).1.2.
Proof.
  intros H. unfold Watch.ServeDNS.
  assert (Hfold : forall st, nonempty st.1.2 ->
            nonempty (fold_left (serveQuestion cfg upstreams alive)
                                questions st).1.2).
  { induction questions as [|question questions IH]; intros st Hst; [done|].
    change (fold_left (serveQuestion cfg upstreams alive)
                      (question :: questions) st)
      with (fold_left (serveQuestion cfg upstreams alive) questions
              (serveQuestion cfg upstreams alive st question)).
    by apply IH, watch_serveQuestion_nonempty. }
  specialize (Hfold ([], cache, w) H).
  by destruct (fold_left (serveQuestion cfg upstreams alive) questions
                         ([], cache, w)) as [[answer1 cache1] w1].
Qed.

Lemma watch_run_nonempty cfg evs cache :
  nonempty cache -> nonempty (run cfg evs cache).
Proof.
  revert cache. induction evs as [|ev evs IH]; intros cache H; [done|].
  apply IH. destruct ev as [upstreams alive questions w|now]; simpl.
  - by apply watch_ServeDNS_nonempty.
  - intros key item Hk. apply clearCache_subset in Hk. by eapply H.
Qed.

End watch_cache.

(** ** The cache in both revisions *)

Section both_revisions.
Context {World Query : Type}.
Variable newQuery : string -> Z -> Query.
Variable Exchange : World -> Query -> string -> ExchangeResult * World.
Variable Now : World -> Z.
Variable ParseIP : string -> dns.IP.
Variable Range : gmap string nat -> list (string * nat).

(** C8.  Whenever a cache entry is stored, by [resolve] in
    [src/handler.go] or by the loop over the questions in the revision
    with the monitor (the cache holds, after the call, an entry it did
    not hold before), the entry holds a sequence of records that is
    not empty, and its expiry is the time read at the store plus the
    TTL of the first record of the sequence, in the arithmetic of
    [int64]: their sum whenever the sum is in range.  No other record
    of the sequence is looked at. *)
Theorem store_expiry :
  (forall cfg domain qtype cache w answers cache' w' key item,
     Handler.resolve newQuery Exchange Now cfg domain qtype cache w
     = (answers, cache', w') ->
     cache' !! key = Some item ->
     cache !! key <> Some item ->
     exists first more,
       value item = first :: more
       /\ expire item = add64 (Now w') (dns.hdr_Ttl (dns.Header first))
       /\ (- 2 ^ 63 <= Now w' + dns.hdr_Ttl (dns.Header first) < 2 ^ 63 ->
           expire item = Now w' + dns.hdr_Ttl (dns.Header first)))
  /\ (forall cfg upstreams alive question answer cache w answer' cache' w'
             key item,
        Watch.serveQuestion newQuery Exchange Now ParseIP Range
          cfg upstreams alive (answer, cache, w) question
        = (answer', cache', w') ->
        cache' !! key = Some item ->
        cache !! key <> Some item ->
        exists first more,
          value item = first :: more
          /\ expire item = add64 (Now w') (dns.hdr_Ttl (dns.Header first))
          /\ (- 2 ^ 63 <= Now w' + dns.hdr_Ttl (dns.Header first) < 2 ^ 63 ->
              expire item = Now w' + dns.hdr_Ttl (dns.Header first))).
Proof.
  split.
  - intros cfg domain qtype cache w answers cache' w' key item Hres Hnew Hold.
    destruct (resolve_store_expiry newQuery Exchange Now _ _ _ _ _ _ _ _ _ _
                Hres Hnew Hold) as (first & more & Hv & _ & He & Hr).
    by exists first, more.
  - intros cfg upstreams alive question answer cache w answer' cache' w'
           key item Hs Hnew Hold.
    by eapply watch_store_expiry.
Qed.

(** C10.  In every state of the cache that the program reaches from
    the empty cache by serving queries and by sweeping, in
    [src/handler.go] as in the revision with the monitor, every entry
    holds at least one record: a store is made of an answer that holds
    a record only, and a sweep only deletes.  So a read of the cache
    that hits yields at least one record. *)
Theorem cache_entries_nonempty (cfg : Config) (cache : gmap string cacheItem) :
  (Handler.reachable newQuery Exchange Now ParseIP cfg cache ->
   (forall key item, cache !! key = Some item -> value item <> [])
   /\ (forall domain qtype w,
         is_Some (cache !! cacheKey domain qtype) ->
         (Handler.resolve newQuery Exchange Now cfg domain qtype cache w).1.1
         <> []))
  /\ (Watch.reachable newQuery Exchange Now ParseIP Range cfg cache ->
      forall key item, cache !! key = Some item -> value item <> []).
Proof.
  split.
  - apply handler_cache_nonempty.
  - intros [evs <-]. apply watch_run_nonempty.
    intros key item. by rewrite lookup_empty.
Qed.

End both_revisions.

(** ** The two revisions run on the scenarios *)

Section scenarios_cache.
Import Scenario.

(** An answer whose first record lives 300 seconds and whose second
    record lives 60 seconds is stored for 300 seconds. *)
Lemma store_expiry_witness :
  exists first more,
    aliasedAnswer "cdn.example.org." = first :: more
    /\ 1700000301
       = add64 (Now (mkWorld 1700000001 ["1.1.1.1:53"]))
               (dns.hdr_Ttl (dns.Header first))
    /\ dns.hdr_Ttl (dns.Header first) = 300
    /\ (dns.hdr_Ttl ∘ dns.Header) <$> more = [60].
Proof.
  destruct (proj1 (store_expiry newQuery Exchange Now ParseIP map_to_list)
              (cfgOf ["1.1.1.1:53"] []) "cdn.example.org." dns.TypeA
              ∅ w0 (aliasedAnswer "cdn.example.org.")
              (<["cdn.example.org.-1" :=
                   mkCacheItem 1700000301 (aliasedAnswer "cdn.example.org.")]> ∅)
              (mkWorld 1700000001 ["1.1.1.1:53"])
              "cdn.example.org.-1"
              (mkCacheItem 1700000301 (aliasedAnswer "cdn.example.org.")))
    as (first & more & Hv & He & _).
  - vm_compute. reflexivity.
  - apply lookup_insert_eq.
  - rewrite lookup_empty. discriminate.
  - exists first, more. simpl in Hv, He.
    split; [exact Hv|]. split; [exact He|].
    injection Hv as <- <-. split; reflexivity.
Defined.

(** The entry that serving the question for ["www.example.com."]
    leaves in the cache. *)
Lemma cache_entries_nonempty_witness :
  value (mkCacheItem 1700000061 (upstreamAnswer "www.example.com.")) <> [].
Proof.
  apply (proj1 (proj1 (cache_entries_nonempty newQuery Exchange Now ParseIP
                         map_to_list exampleCfg
                         (Handler.run newQuery Exchange Now ParseIP exampleCfg
                            [Handler.Serve
                               [dns.mkQuestion "www.example.com." dns.TypeA
                                               dns.ClassINET] w0] ∅))
                 (ex_intro _ [Handler.Serve
                                [dns.mkQuestion "www.example.com." dns.TypeA
                                                dns.ClassINET] w0] eq_refl))
               "www.example.com.-1").
  vm_compute. reflexivity.
Defined.


(** An endpoint outside the serving set that has failed seven times
    answers a probe and is served from again. *)
Example probe_revival :
  Watch.probe ("www.baidu.com.", dns.TypeA) Exchange Now
    ([Watch.mkUpstream "8.8.8.8:53" 1699999991 7], ∅, w0) 0
  = ([Watch.mkUpstream "8.8.8.8:53" 1700000001 0],
     {["8.8.8.8:53" := 0%nat]},
     mkWorld 1700000001 ["8.8.8.8:53"]).
Proof. vm_compute. reflexivity. Qed.

(** An endpoint that has failed 21 times is not probed any more. *)
Example probe_dead :
  Watch.probe ("www.baidu.com.", dns.TypeA) Exchange Now
    ([Watch.mkUpstream "8.8.8.8:53" 1699999991 21], ∅, w0) 0
  = ([Watch.mkUpstream "8.8.8.8:53" 1699999991 21], ∅, w0).
Proof. vm_compute. reflexivity. Qed.

End scenarios_cache.

(** * Further properties of the code *)

(** ** The type tables and the matcher *)

(** X1.  [init] makes [typeMapRev] the inverse of [typeMap]: a number
    is mapped to a type name exactly when [typeMap] maps that name to
    the number. *)
Theorem typeMapRev_inverse (k : string) (t : Z) :
  typeMapRev !! t = Some k <-> typeMap !! k = Some t.
Proof.
  rewrite typeMapRev_eq. unfold typeMap, dns.TypeA, dns.TypeAAAA,
    dns.TypeTXT, dns.TypeCNAME, dns.TypeMX, dns.TypeHTTPS. simpl.
  split; intros H.
  - repeat (rewrite lookup_insert in H; case_decide;
            [simplify_eq; vm_compute; reflexivity|]).
    by rewrite lookup_empty in H.
  - repeat (rewrite lookup_insert in H; case_decide;
            [simplify_eq; vm_compute; reflexivity|]).
    by rewrite lookup_empty in H.
Qed.

Section matcher_spec.
Import strings.

Implicit Types (question : dns.Question) (r : Record_).

Lemma matchRecords_filter question d rs :
  matchRecords question d rs
  = head (filter (fun r => selects question d r = true) rs).
Proof.
  induction rs as [|r rs IH]; [done|].
  rewrite matchRecords_step, filter_cons.
  destruct (selects question d r) eqn:E.
  - by rewrite decide_True.
  - by rewrite decide_False.
Qed.

Lemma filter_accepts question d rs :
  filter (fun r => accepts question d r = true) rs
  = if candidate question d
    then filter (fun r => selects question d r = true) rs
    else [].
Proof.
  unfold accepts. destruct (candidate question d); simpl.
  - done.
  - induction rs as [|r rs IH]; [done|].
    by rewrite filter_cons, decide_False.
Qed.

(** X2.  [match] returns the first record it accepts, in the order of
    the domains and, within a domain, of the records; it reports no
    match exactly when it accepts no record of the configuration. *)
Theorem match_first_accepted (cfg : Config) question :
  match_ cfg question = head (acceptedRecords cfg question).
Proof.
  unfold match_, acceptedRecords.
  induction (cfg_Domains cfg) as [|d ds IH]; [done|].
  rewrite matchDomains_step. simpl flat_map.
  rewrite filter_accepts, matchRecords_filter.
  destruct (candidate question d); [|done].
  destruct (filter (fun r => selects question d r = true) (dom_Records d));
    [exact IH | done].
Qed.

(** X3.  A record [match] returns is a record of a configured domain
    whose name the name of the question contains; it is a name match
    for the question; its type is a type of [typeMap], and is the type
    asked for or CNAME; and the type asked for is one of the six
    supported types. *)
Theorem match_result (cfg : Config) question r :
  match_ cfg question = Some r ->
  exists d t,
    d ∈ cfg_Domains cfg /\ r ∈ dom_Records d
    /\ Contains (dns.q_Name question) (dom_Name d) = true
    /\ nameMisses question d r = false
    /\ typeMap !! rec_Type r = Some t
    /\ (t = dns.q_Qtype question \/ t = dns.TypeCNAME)
    /\ is_Some (typeMapRev !! dns.q_Qtype question).
Proof.
  intros H. apply matchDomains_accepts in H as (d & Hd & Hr & Ha).
  unfold accepts, candidate, selects in Ha.
  apply andb_true_iff in Ha as [Hc Hs].
  apply andb_true_iff in Hc as [Hdom Hsup].
  apply andb_true_iff in Hs as [Hname Hty].
  apply bool_decide_eq_true in Hsup. apply negb_true_iff in Hname.
  destruct (typeMap !! rec_Type r) as [t|] eqn:Et; [|done].
  exists d, t. repeat split; try done.
  apply orb_true_iff in Hty as [Hty|Hty]; apply Z.eqb_eq in Hty; auto.
Qed.

(** X4.  A question whose type is none of the six types of [typeMap]
    is never matched, whatever the configuration: every domain is
    skipped, and [handleLocal] leaves the reply as it is. *)
Theorem match_unsupported_type (ParseIP : string -> dns.IP) (cfg : Config)
    question (answer : list dns.RR) :
  typeMapRev !! dns.q_Qtype question = None ->
  match_ cfg question = None
  /\ Handler.handleLocal ParseIP cfg question answer = (answer, false).
Proof.
  intros H.
  assert (Hm : match_ cfg question = None).
  { unfold match_. induction (cfg_Domains cfg) as [|d ds IH]; [done|].
    rewrite matchDomains_step. unfold candidate.
    rewrite H, bool_decide_eq_false_2, andb_false_r; [done|].
    by intros [? ?]. }
  split; [done|]. unfold Handler.handleLocal. by rewrite Hm.
Qed.

End matcher_spec.

(** The only record of the scenario is the one returned. *)
Lemma match_result_witness :
  exists d t,
    d ∈ cfg_Domains Scenario.exampleCfg /\ Scenario.wwwRecord ∈ dom_Records d
    /\ strings.Contains "www.example.com." (dom_Name d) = true
    /\ nameMisses (dns.mkQuestion "www.example.com." dns.TypeA dns.ClassINET)
                  d Scenario.wwwRecord = false
    /\ typeMap !! rec_Type Scenario.wwwRecord = Some t
    /\ (t = dns.TypeA \/ t = dns.TypeCNAME)
    /\ is_Some (typeMapRev !! dns.TypeA).
Proof.
  apply (match_result Scenario.exampleCfg
           (dns.mkQuestion "www.example.com." dns.TypeA dns.ClassINET)
           Scenario.wwwRecord).
  vm_compute. reflexivity.
Defined.

(** A question of type NS (2) for the name of the scenario. *)
Lemma match_unsupported_type_witness :
  match_ Scenario.exampleCfg
         (dns.mkQuestion "www.example.com." 2 dns.ClassINET) = None.
Proof.
  apply (proj1 (match_unsupported_type Scenario.ParseIP Scenario.exampleCfg
                  (dns.mkQuestion "www.example.com." 2 dns.ClassINET) []
                  ltac:(vm_compute; reflexivity))).
Defined.

(** ** The cache: sweeps and keys *)

(** X5.  After a sweep at the time [now] the cache holds exactly the
    entries it held before whose expiry is not below [now]: an entry
    that expires in the very second of the sweep is kept, and a sweep
    changes no entry it keeps. *)
Theorem clearCache_spec (now : Z) (cache : gmap string cacheItem)
    (key : string) (v : cacheItem) :
  clearCache now cache !! key = Some v
  <-> cache !! key = Some v /\ now <= expire v.
Proof.
  rewrite clearCache_lookup.
  destruct (cache !! key) as [v'|]; [|by split; [|intros [? _]]].
  destruct (Z.ltb_spec (expire v') now); split.
  - done.
  - intros [[= ->] ?]. lia.
  - intros [= ->]. split; [done | lia].
  - by intros [? _].
Qed.

(** X6.  Two sweeps in a row do what one sweep at the later of the two
    times does; so a sweep repeated at the same time changes nothing,
    and the order of two sweeps does not matter. *)
Theorem clearCache_compose (now1 now2 : Z) (cache : gmap string cacheItem) :
  clearCache now2 (clearCache now1 cache) = clearCache (Z.max now1 now2) cache.
Proof.
  apply map_eq. intros key. rewrite !clearCache_lookup.
  destruct (cache !! key) as [v|]; [|done].
  destruct (Z.ltb_spec (expire v) now1), (Z.ltb_spec (expire v) now2),
    (Z.ltb_spec (expire v) (Z.max now1 now2)); try done; lia.
Qed.

Section cache_keys.
Import strings.

Lemma Count_app a b c : Count (a +:+ b) c = (Count a c + Count b c)%nat.
Proof.
  induction a as [|d a IH]; [done|].
  rewrite strings_facts.app_String. simpl. rewrite IH. lia.
Qed.

(** The decimal digits of a number hold no dash. *)
Lemma pretty_N_go_dashes (x : N) (s : string) :
  Count (pretty_N_go x s) "-" = Count s "-".
Proof.
  revert s. induction (N.lt_wf_0 x) as [x _ IH]; intros s.
  assert (x = 0 \/ 0 < x)%N as [->|Hpos] by lia.
  - by rewrite pretty_N_go_0.
  - rewrite pretty_N_go_step by done.
    rewrite IH by (by apply N.div_lt). simpl.
    unfold pretty_N_char. by repeat case_match.
Qed.

Lemma pretty_Z_dashes (q : Z) : 0 <= q -> Count (pretty q) "-" = 0%nat.
Proof.
  destruct q as [|p|p]; [done| |lia]. intros _.
  unfold pretty, pretty_Z, pretty, pretty_positive, pretty, pretty_N.
  rewrite decide_False by done. by rewrite pretty_N_go_dashes.
Qed.

(** Two strings cut at a dash that is followed by no other dash are cut
    at the same place. *)
Lemma last_dash_split (a b x y : string) :
  Count x "-" = 0%nat -> Count y "-" = 0%nat ->
  a +:+ String "-" x = b +:+ String "-" y -> a = b /\ x = y.
Proof.
  intros Hx Hy. revert b.
  induction a as [|c a IH]; intros [|c' b] H;
    rewrite ?strings_facts.app_String in H.
  - by injection H.
  - injection H as <- ->.
    rewrite Count_app in Hx. simpl in Hx. lia.
  - injection H as -> <-.
    rewrite Count_app in Hy. simpl in Hy. lia.
  - injection H as -> H. destruct (IH _ H) as [-> ->]. done.
Qed.

(** X7.  The key of the cache tells questions apart: two questions
    with the same key have the same name and the same type (a type is
    an unsigned number). *)
Theorem cacheKey_inj (domain1 domain2 : string) (qtype1 qtype2 : Z) :
  0 <= qtype1 -> 0 <= qtype2 ->
  cacheKey domain1 qtype1 = cacheKey domain2 qtype2 ->
  domain1 = domain2 /\ qtype1 = qtype2.
Proof.
  intros H1 H2 H. unfold cacheKey in H.
  change ("-" +:+ pretty qtype1) with (String "-" (pretty qtype1)) in H.
  change ("-" +:+ pretty qtype2) with (String "-" (pretty qtype2)) in H.
  destruct (last_dash_split _ _ _ _ (pretty_Z_dashes _ H1)
              (pretty_Z_dashes _ H2) H) as [-> Hp].
  split; [done|]. by apply (inj pretty).
Qed.

End cache_keys.

(** An entry that expires at 1700000060 is kept by the sweep of that
    second. *)
Lemma clearCache_spec_witness :
  clearCache 1700000060
    (<["example.org.-1" :=
         mkCacheItem 1700000060 (Scenario.upstreamAnswer "example.org.")]> ∅)
  !! "example.org.-1"
  = Some (mkCacheItem 1700000060 (Scenario.upstreamAnswer "example.org.")).
Proof.
  apply (proj2 (clearCache_spec 1700000060
                  (<["example.org.-1" :=
                       mkCacheItem 1700000060
                         (Scenario.upstreamAnswer "example.org.")]> ∅)
                  "example.org.-1"
                  (mkCacheItem 1700000060
                     (Scenario.upstreamAnswer "example.org.")))).
  split; [apply lookup_insert_eq | simpl; lia].
Defined.

(** A name that itself holds a dash. *)
Lemma cacheKey_inj_witness : "a-1" = "a-1" /\ 5 = 5.
Proof.
  apply (cacheKey_inj "a-1" "a-1" 5 5); [lia | lia | reflexivity].
Defined.

(** ** [src/handler.go]: more on the forwarder and the orchestrator *)

Section handler_more.
Context {World Query : Type}.
Variable newQuery : string -> Z -> Query.
Variable Exchange : World -> Query -> string -> ExchangeResult * World.
Variable Now : World -> Z.
Variable ParseIP : string -> dns.IP.

Local Abbreviation exchangeServers := (Handler.exchangeServers Exchange Now).
Local Abbreviation resolve := (Handler.resolve newQuery Exchange Now).
Local Abbreviation failAll := (Handler.failAll Exchange).
Local Abbreviation synthesize := (Handler.synthesize ParseIP).
Local Abbreviation handleLocal := (Handler.handleLocal ParseIP).
Local Abbreviation serveQuestion :=
  (Handler.serveQuestion newQuery Exchange Now ParseIP).
Local Abbreviation ServeDNS := (Handler.ServeDNS newQuery Exchange Now ParseIP).

(** X8.  A question that [resolve] has answered with at least one
    record is answered the same way when it is asked again on the cache
    the first call leaves, in whatever world: from the cache, with no
    exchange, and the cache is left as it is. *)
Theorem resolve_idempotent (cfg : Config) (domain : string) (qtype : Z)
    (cache cache' : gmap string cacheItem) (w w' w2 : World)
    (first : dns.RR) (more : list dns.RR) :
  resolve cfg domain qtype cache w = (first :: more, cache', w') ->
  resolve cfg domain qtype cache' w2 = (first :: more, cache', w2).
Proof.
  intros H.
  destruct (cache !! cacheKey domain qtype) as [v|] eqn:E.
  - rewrite (resolve_hit newQuery Exchange Now _ _ _ _ _ _ E) in H. injection H as Hv <- <-.
    by rewrite (resolve_hit newQuery Exchange Now _ _ _ _ _ _ E), Hv.
  - rewrite (resolve_miss newQuery Exchange Now _ _ _ _ _ E) in H.
    apply exchangeServers_cache in H. simpl in H. subst cache'.
    by rewrite (resolve_hit newQuery Exchange Now _ _ _ _ _ _
                  (lookup_insert_eq _ _ _)).
Qed.

(** X9.  When [match] finds no record for a question, the cache holds
    nothing for it and every configured server fails with an error
    (also when no server is configured), the question adds no record to
    the reply, and nothing is stored for it: a failure is not cached. *)
Theorem serveQuestion_no_answer (cfg : Config) (question : dns.Question)
    (answer : list dns.RR) (cache : gmap string cacheItem) (w w1 : World) :
  match_ cfg question = None ->
  cache !! cacheKey (dns.q_Name question) (dns.q_Qtype question) = None ->
  failAll (newQuery (dns.q_Name question) (dns.q_Qtype question))
          (cfg_Servers cfg) w = Some w1 ->
  serveQuestion cfg (answer, cache, w) question = (answer, cache, w1).
Proof.
  intros Hm Hmiss Hfail. rewrite serveQuestion_eq.
  rewrite (resolve_exhausted newQuery Exchange Now _ _ _ _ _ _ Hmiss Hfail).
  unfold Handler.handleLocal. rewrite Hm. simpl. by rewrite app_nil_r.
Qed.

Lemma exchangeServers_reply m key servers cache w first more cache' w' :
  exchangeServers m key servers cache w = (first :: more, cache', w') ->
  exists server wa,
    server ∈ servers
    /\ Exchange wa m server = (ExchangeReply (first :: more), w').
Proof.
  revert w. induction servers as [|server servers IH]; intros w; simpl.
  - done.
  - destruct (Exchange w m server) as [[e|Answer] w1] eqn:E.
    + intros H. destruct (IH _ H) as (s & wa & ? & ?).
      exists s, wa. split; [by right | done].
    + destruct Answer as [|f l]; [done|]. intros [= <- <- _ <-].
      exists server, w. split; [by left | done].
Qed.

(** X10.  What [resolve] stores is what a configured server has sent:
    an entry the cache holds after the call and did not hold before is
    under the key of the question, and its records are the answer
    section of a reply, without error, of one of the configured servers
    to the query for the question.  Nothing made from the local zones
    is ever stored. *)
Theorem resolve_stores_upstream_answer (cfg : Config) (domain : string)
    (qtype : Z) (cache cache' : gmap string cacheItem) (w w' : World)
    (answers : list dns.RR) (key : string) (item : cacheItem) :
  resolve cfg domain qtype cache w = (answers, cache', w') ->
  cache' !! key = Some item ->
  cache !! key <> Some item ->
  key = cacheKey domain qtype
  /\ exists server wa,
       server ∈ cfg_Servers cfg
       /\ Exchange wa (newQuery domain qtype) server
          = (ExchangeReply (value item), w').
Proof.
  intros Hres Hnew Hold.
  destruct (cache !! cacheKey domain qtype) as [v|] eqn:E.
  { rewrite (resolve_hit newQuery Exchange Now _ _ _ _ _ _ E) in Hres.
    injection Hres as _ <- _. done. }
  rewrite (resolve_miss newQuery Exchange Now _ _ _ _ _ E) in Hres.
  pose proof (exchangeServers_cache Exchange Now _ _ _ _ _ _ _ _ Hres) as Hc.
  destruct answers as [|first more]; simpl in Hc; subst cache'; [done|].
  destruct (decide (cacheKey domain qtype = key)) as [<-|Hne].
  - rewrite lookup_insert_eq in Hnew. injection Hnew as <-. simpl.
    split; [done|]. by eapply exchangeServers_reply.
  - by rewrite lookup_insert_ne in Hnew.
Qed.

Lemma handleLocal_prefix cfg question a b :
  (handleLocal cfg question (a ++ b)).1 = a ++ (handleLocal cfg question b).1.
Proof.
  unfold Handler.handleLocal.
  destruct (match_ cfg question); simpl; [|done]. by rewrite app_assoc.
Qed.

Lemma serveQuestion_prefix cfg question a b cache w :
  serveQuestion cfg (a ++ b, cache, w) question =
  let '(b', cache', w') := serveQuestion cfg (b, cache, w) question in
  (a ++ b', cache', w').
Proof.
  rewrite !serveQuestion_eq, handleLocal_prefix.
  destruct (resolve cfg (dns.q_Name question) (dns.q_Qtype question) cache w)
    as [[answers cache1] w1].
  by rewrite app_assoc.
Qed.

Lemma fold_serveQuestion_prefix cfg questions a b cache w :
  fold_left (serveQuestion cfg) questions (a ++ b, cache, w) =
  let '(b', cache', w') :=
    fold_left (serveQuestion cfg) questions (b, cache, w) in
  (a ++ b', cache', w').
Proof.
  revert b cache w.
  induction questions as [|question questions IH]; intros b cache w; [done|].
  cbn [fold_left]. rewrite serveQuestion_prefix.
  destruct (serveQuestion cfg (b, cache, w) question) as [[b1 cache1] w1].
  apply IH.
Qed.

(** X11.  The questions of a message are served one after the other:
    the reply to a message is the reply to its first questions followed
    by the reply to the remaining ones, served on the cache and in the
    world the first ones leave.  So the answers stand in the order of
    the questions, and an answer stored for one question is there for
    the questions after it. *)
Theorem ServeDNS_app (cfg : Config) (questions1 questions2 : list dns.Question)
    (cache : gmap string cacheItem) (w : World) :
  ServeDNS cfg (questions1 ++ questions2) cache w =
  let '(msg1, cache1, w1) := ServeDNS cfg questions1 cache w in
  let '(msg2, cache2, w2) := ServeDNS cfg questions2 cache1 w1 in
  (mkMsg true (Answer msg1 ++ Answer msg2), cache2, w2).
Proof.
  unfold Handler.ServeDNS. rewrite fold_left_app.
  destruct (fold_left (serveQuestion cfg) questions1 ([], cache, w))
    as [[a1 cache1] w1].
  rewrite <- (app_nil_r a1) at 1. rewrite fold_serveQuestion_prefix.
  by destruct (fold_left (serveQuestion cfg) questions2 ([], cache1, w1))
    as [[a2 cache2] w2].
Qed.

(** X12.  Serving a message never deletes an entry of the cache and
    never replaces one: an entry that is there before is there, with
    the same records and the same expiry, afterwards.  In particular a
    read that hits does not prolong the life of the entry. *)
Theorem ServeDNS_keeps_entries (cfg : Config) (questions : list dns.Question)
    (cache : gmap string cacheItem) (w : World) (key : string)
    (item : cacheItem) :
  cache !! key = Some item ->
  (ServeDNS cfg questions cache w).1.2 !! key = Some item.
Proof.
  intros H.
  by apply (ServeDNS_extends newQuery Exchange Now ParseIP cfg questions cache w).
Qed.

(** X13.  A configured TXT record is matched and never served: for a
    question the matcher answers with a record of type TXT, the reply
    gets what the forwarder returns and nothing else, as for a question
    that matches nothing. *)
Theorem txt_record_is_forwarded (cfg : Config) (question : dns.Question)
    (r : Record_) (answer : list dns.RR) (cache : gmap string cacheItem)
    (w : World) :
  match_ cfg question = Some r ->
  typeMap !! rec_Type r = Some dns.TypeTXT ->
  serveQuestion cfg (answer, cache, w) question =
  let '(answers, cache1, w1) :=
    resolve cfg (dns.q_Name question) (dns.q_Qtype question) cache w in
  (answer ++ answers, cache1, w1).
Proof.
  intros Hm Hty. rewrite (serveQuestion_matched newQuery Exchange Now ParseIP _ _ _ _ _ _ Hm).
  unfold Handler.synthesize. rewrite Hty. simpl. by rewrite app_nil_r.
Qed.

End handler_more.

Section handler_more_scenarios.
Import Scenario.

(** The question for ["example.org."] asked twice. *)
Lemma resolve_idempotent_witness :
  resolve exampleCfg "example.org." dns.TypeA
    (<["example.org.-1" :=
         mkCacheItem 1700000061 (upstreamAnswer "example.org.")]> ∅)
    w0
  = (upstreamAnswer "example.org.",
     <["example.org.-1" :=
         mkCacheItem 1700000061 (upstreamAnswer "example.org.")]> ∅,
     w0).
Proof.
  apply (resolve_idempotent newQuery Exchange Now exampleCfg
           "example.org." dns.TypeA ∅
           (<["example.org.-1" :=
                mkCacheItem 1700000061 (upstreamAnswer "example.org.")]> ∅)
           w0 (mkWorld 1700000001 ["8.8.8.8:53"]) w0
           (dns.A (dns.mkHeader "example.org." dns.TypeA dns.ClassINET 60)
                  [0; 0; 0; 0; 0; 0; 0; 0; 0; 0; 255; 255; 93; 184; 216; 34])
           []).
  vm_compute. reflexivity.
Defined.

(** A name outside the zone, and the only server times out. *)
Lemma serveQuestion_no_answer_witness :
  Handler.serveQuestion newQuery Exchange Now ParseIP
    (cfgOf ["10.0.0.1:53"] [wwwRecord]) ([], ∅, w0)
    (dns.mkQuestion "nowhere.org." dns.TypeA dns.ClassINET)
  = ([], ∅, mkWorld 1700000001 ["10.0.0.1:53"]).
Proof.
  apply (serveQuestion_no_answer newQuery Exchange Now ParseIP
           (cfgOf ["10.0.0.1:53"] [wwwRecord])
           (dns.mkQuestion "nowhere.org." dns.TypeA dns.ClassINET)
           [] ∅ w0 (mkWorld 1700000001 ["10.0.0.1:53"])).
  - vm_compute. reflexivity.
  - apply lookup_empty.
  - vm_compute. reflexivity.
Defined.

(** The entry stored for ["example.org."] is the reply of the server of
    the scenario. *)
Lemma resolve_stores_upstream_answer_witness :
  "example.org.-1" = cacheKey "example.org." dns.TypeA
  /\ exists server wa,
       server ∈ cfg_Servers exampleCfg
       /\ Exchange wa (newQuery "example.org." dns.TypeA) server
          = (ExchangeReply (upstreamAnswer "example.org."),
             mkWorld 1700000001 ["8.8.8.8:53"]).
Proof.
  apply (resolve_stores_upstream_answer newQuery Exchange Now exampleCfg
           "example.org." dns.TypeA ∅
           (<["example.org.-1" :=
                mkCacheItem 1700000061 (upstreamAnswer "example.org.")]> ∅)
           w0 (mkWorld 1700000001 ["8.8.8.8:53"])
           (upstreamAnswer "example.org.") "example.org.-1"
           (mkCacheItem 1700000061 (upstreamAnswer "example.org."))).
  - vm_compute. reflexivity.
  - apply lookup_insert_eq.
  - rewrite lookup_empty. discriminate.
Defined.

(** An entry that expired long ago is still there after a message has
    been served. *)
Lemma ServeDNS_keeps_entries_witness :
  (ServeDNS exampleCfg
     [dns.mkQuestion "www.example.com." dns.TypeA dns.ClassINET]
     (<["example.org.-1" := mkCacheItem 0 (upstreamAnswer "example.org.")]> ∅)
     w0).1.2 !! "example.org.-1"
  = Some (mkCacheItem 0 (upstreamAnswer "example.org.")).
Proof.
  apply (ServeDNS_keeps_entries newQuery Exchange Now ParseIP exampleCfg
           [dns.mkQuestion "www.example.com." dns.TypeA dns.ClassINET]
           (<["example.org.-1" :=
                mkCacheItem 0 (upstreamAnswer "example.org.")]> ∅)
           w0 "example.org.-1"
           (mkCacheItem 0 (upstreamAnswer "example.org."))).
  apply lookup_insert_eq.
Defined.

(** The text record of the zone and a server that answers. *)
Lemma txt_record_is_forwarded_witness :
  Handler.serveQuestion newQuery Exchange Now ParseIP
    (cfgOf ["8.8.8.8:53"] [textRecord]) ([], ∅, w0)
    (dns.mkQuestion "txt.example.com." dns.TypeTXT dns.ClassINET)
  = (let '(answers, cache1, w1) :=
       Handler.resolve newQuery Exchange Now
         (cfgOf ["8.8.8.8:53"] [textRecord])
         "txt.example.com." dns.TypeTXT ∅ w0 in
     ([] ++ answers, cache1, w1)).
Proof.
  apply (txt_record_is_forwarded newQuery Exchange Now ParseIP
           (cfgOf ["8.8.8.8:53"] [textRecord])
           (dns.mkQuestion "txt.example.com." dns.TypeTXT dns.ClassINET)
           textRecord [] ∅ w0);
    vm_compute; reflexivity.
Defined.

End handler_more_scenarios.

(** ** The target of an alias *)

Section alias_target.
Import strings.
Variable ParseIP : string -> dns.IP.

Lemma HasSuffix_dot_cons c d s :
  HasSuffix (String c (String d s)) "." = HasSuffix (String d s) ".".
Proof.
  cbn [HasSuffix]. destruct (String.eqb_spec (String c (String d s)) ".");
    [discriminate | done].
Qed.

(** [TrimSuffix] takes one final dot away, and nothing else. *)
Lemma TrimSuffix_dot v :
  if HasSuffix v "." then TrimSuffix v "." +:+ "." = v
  else TrimSuffix v "." = v.
Proof.
  induction v as [|c v IH]; [done|].
  destruct v as [|d v].
  - cbn. destruct (Ascii.eqb_spec c "."); [by subst|].
    destruct (Ascii.eqb c "." ) eqn:E; [by apply Ascii.eqb_eq in E | done].
  - rewrite HasSuffix_dot_cons.
    change (TrimSuffix (String c (String d v)) ".")
      with (String c (TrimSuffix (String d v) ".")).
    destruct (HasSuffix (String d v) ".").
    + by rewrite strings_facts.app_String, IH.
    + by rewrite IH.
Qed.

Lemma HasSuffix_app_dot s : HasSuffix (s +:+ ".") "." = true.
Proof.
  induction s as [|c s IH]; [done|].
  rewrite strings_facts.app_String. cbn [HasSuffix]. rewrite IH.
  apply orb_true_r.
Qed.

(** X14.  The target of the CNAME record the synthesizer builds always
    ends with a dot, one dot being added to a value that does not end
    with one and a value that ends with a dot being taken as it is; the
    record bears the name of the question and the configured TTL. *)
Theorem cname_target_canonical (question : dns.Question) (r : Record_) :
  typeMap !! rec_Type r = Some dns.TypeCNAME ->
  exists target,
    Handler.synthesize ParseIP question r =
    [dns.CNAME (dns.mkHeader (dns.q_Name question) dns.TypeCNAME
                             dns.ClassINET (rec_TTL r)) target]
    /\ HasSuffix target "." = true
    /\ (HasSuffix (rec_Value r) "." = true -> target = rec_Value r)
    /\ (HasSuffix (rec_Value r) "." = false -> target = rec_Value r +:+ ".").
Proof.
  intros Hty. exists (TrimSuffix (rec_Value r) "." +:+ ".").
  split; [|split; [|split]].
  - unfold Handler.synthesize. by rewrite Hty.
  - apply HasSuffix_app_dot.
  - intros H. pose proof (TrimSuffix_dot (rec_Value r)) as Ht.
    by rewrite H in Ht.
  - intros H. pose proof (TrimSuffix_dot (rec_Value r)) as Ht.
    rewrite H in Ht. by rewrite Ht.
Qed.

End alias_target.

(** The alias of the scenario, whose value has no final dot. *)
Lemma cname_target_canonical_witness :
  exists target,
    Handler.synthesize Scenario.ParseIP
      (dns.mkQuestion "www.example.com." dns.TypeA dns.ClassINET)
      Scenario.aliasRecord =
    [dns.CNAME (dns.mkHeader "www.example.com." dns.TypeCNAME
                             dns.ClassINET 300) target]
    /\ strings.HasSuffix target "." = true
    /\ (strings.HasSuffix "target.example.net" "." = true ->
        target = "target.example.net")
    /\ (strings.HasSuffix "target.example.net" "." = false ->
        target = "target.example.net" +:+ ".").
Proof.
  apply (cname_target_canonical Scenario.ParseIP
           (dns.mkQuestion "www.example.com." dns.TypeA dns.ClassINET)
           Scenario.aliasRecord).
  vm_compute. reflexivity.
Defined.

(** ** [src/unnamed/part_002]: more on the health monitor *)

Section monitor_more.
Context {World Query : Type}.
Variable probeQuery : Query.
Variable Exchange : World -> Query -> string -> ExchangeResult * World.
Variable Now : World -> Z.

Local Abbreviation probe := (Watch.probe probeQuery Exchange Now).
Local Abbreviation loop := (Watch.loop probeQuery Exchange Now).
Local Abbreviation watch := (Watch.watch probeQuery Exchange Now).
Local Abbreviation MonitorState := (Watch.MonitorState (World := World)).

(** A property of the state that every probe keeps is kept by [loop]
    and by [watch], whatever the world does between two runs. *)
Lemma watch_invariant (P : MonitorState -> Prop) :
  (forall st i, P st -> P (probe st i)) ->
  (forall upstreams alive w w', P (upstreams, alive, w) ->
                                P (upstreams, alive, w')) ->
  forall pause n st, P st -> P (watch pause n st).
Proof.
  intros Hprobe Hworld pause n.
  assert (Hloop : forall st, P st -> P (loop st)).
  { intros [[upstreams alive] w]. unfold Watch.loop.
    generalize (seq 0 (length upstreams)) as indices.
    generalize (upstreams, alive, w) as st. clear upstreams alive w.
    intros st indices. revert st.
    induction indices as [|i indices IH]; intros st H; [done|].
    simpl. by apply IH, Hprobe. }
  induction n as [|n IH]; intros st H; [done|].
  simpl. pose proof (Hloop st H) as Hl.
  destruct (loop st) as [[upstreams alive] w1].
  apply IH. by eapply Hworld.
Qed.

Lemma probe_servers st i :
  Watch.server <$> (probe st i).1.1 = Watch.server <$> st.1.1.
Proof.
  destruct st as [[upstreams alive] w]. unfold Watch.probe.
  destruct (upstreams !! i) as [up|] eqn:Hup; [|done].
  destruct (Watch.IsDead up); [done|].
  destruct (Exchange w probeQuery (Watch.server up)) as [res w1].
  destruct (Watch.answered res); simpl;
    rewrite list_fmap_insert; simpl;
    apply list_insert_id; by rewrite list_lookup_fmap, Hup.
Qed.

Lemma watch_servers (pause : World -> World) (n : nat)
    (cfg : Config) (w : World) :
  Watch.server <$> (watch pause n (Watch.watchInit cfg w)).1.1
  = cfg_Servers cfg.
Proof.
  apply (watch_invariant
           (fun st => Watch.server <$> st.1.1 = cfg_Servers cfg)).
  - intros st i H. by rewrite probe_servers.
  - done.
  - unfold Watch.watchInit. simpl. rewrite <- list_fmap_compose.
    apply list_fmap_id.
Qed.

(** X15.  The monitor watches the configured servers and nothing else:
    after any number of runs of its loop, the endpoints it holds are,
    in the order of the configuration, one for each configured server;
    no endpoint is ever added, dropped or given another address. *)
Theorem watch_servers_fixed (pause : World -> World) (n : nat)
    (cfg : Config) (w : World) :
  Watch.server <$> (watch pause n (Watch.watchInit cfg w)).1.1
  = cfg_Servers cfg
  /\ length (watch pause n (Watch.watchInit cfg w)).1.1
     = length (cfg_Servers cfg).
Proof.
  pose proof (watch_servers pause n cfg w) as H.
  split; [exact H|]. by rewrite <- H, length_fmap.
Qed.

Lemma probe_sound st i :
  Watch.countersInRange st /\ Watch.servingSound st ->
  Watch.countersInRange (probe st i) /\ Watch.servingSound (probe st i).
Proof.
  intros [Hr Hs]. split; [by apply probe_countersInRange|].
  destruct st as [[upstreams alive] w].
  unfold Watch.servingSound, Watch.countersInRange in *. simpl in Hr, Hs.
  unfold Watch.probe.
  destruct (upstreams !! i) as [up|] eqn:Hup; [|exact Hs].
  pose proof (lookup_lt_Some _ _ _ Hup) as Hlt.
  pose proof (Forall_lookup_1 _ _ _ _ Hr Hup) as Hrange. simpl in Hrange.
  destruct (Watch.IsDead up) eqn:Hdead; [exact Hs|].
  destruct (Exchange w probeQuery (Watch.server up)) as [res w1].
  destruct (Watch.answered res); simpl; intros s k Hk.
  - destruct (decide (Watch.server up = s)) as [<-|Hne].
    + rewrite lookup_insert_eq in Hk. injection Hk as <-.
      eexists. split; [by apply list_lookup_insert_eq|]. simpl.
      split; [done | lia].
    + rewrite lookup_insert_ne in Hk by done.
      destruct (Hs _ _ Hk) as (upk & Hupk & Hsk & Hfk).
      destruct (decide (i = k)) as [->|Hik]; [by simplify_eq|].
      exists upk. by rewrite list_lookup_insert_ne.
  - assert (Hk' : alive !! s = Some k).
    { destruct (bool_decide (is_Some (alive !! Watch.server up))
                && (5 <=? add64 (Watch.failed up) 1)); [|done].
      by apply lookup_delete_Some in Hk as [_ ?]. }
    destruct (Hs _ _ Hk') as (upk & Hupk & Hsk & Hfk).
    destruct (decide (i = k)) as [->|Hik].
    + simplify_eq. rewrite add64_exact in * by lia.
      rewrite bool_decide_eq_true_2 in Hk by eauto. simpl in Hk.
      destruct (Z.leb_spec 5 (Watch.failed up + 1)).
      * by rewrite lookup_delete_eq in Hk.
      * eexists. split; [by apply list_lookup_insert_eq|]. simpl.
      split; [done | lia].
    + exists upk. by rewrite list_lookup_insert_ne.
Qed.

(** X16.  In every state the monitor reaches from its start, an entry
    of the serving set stands for a configured server and points to the
    endpoint of that server, which has failed fewer than five probes in
    a row. *)
Theorem watch_serving_sound (pause : World -> World) (n : nat)
    (cfg : Config) (w : World) (s : string) (i : nat) :
  (watch pause n (Watch.watchInit cfg w)).1.2 !! s = Some i ->
  s ∈ cfg_Servers cfg
  /\ exists up,
       (watch pause n (Watch.watchInit cfg w)).1.1 !! i = Some up
       /\ Watch.server up = s /\ 0 <= Watch.failed up <= 4.
Proof.
  intros H.
  assert (Hinv : Watch.countersInRange (watch pause n (Watch.watchInit cfg w))
                 /\ Watch.servingSound (watch pause n (Watch.watchInit cfg w))).
  { apply (watch_invariant
             (fun st => Watch.countersInRange st /\ Watch.servingSound st)).
    - intros st j. apply probe_sound.
    - done.
    - split.
      + unfold Watch.countersInRange, Watch.watchInit. simpl.
        apply Forall_fmap, Forall_forall. intros server _. simpl. lia.
      + intros s' i'. unfold Watch.watchInit. simpl.
        by rewrite lookup_empty. }
  destruct (proj2 Hinv _ _ H) as (up & Hup & Hs & Hf).
  split; [|by exists up].
  rewrite <- (watch_servers pause n cfg w), <- Hs.
  apply list_elem_of_fmap. exists up. split; [done|].
  by eapply list_elem_of_lookup_2.
Qed.

Lemma probe_keeps_dead st i j up :
  st.1.1 !! i = Some up -> Watch.IsDead up = true ->
  (probe st j).1.1 !! i = Some up.
Proof.
  destruct st as [[upstreams alive] w]. simpl. intros Hup Hdead.
  unfold Watch.probe.
  destruct (upstreams !! j) as [upj|] eqn:Hj; [|done].
  destruct (Watch.IsDead upj) eqn:Hdj; [done|].
  assert (j <> i) by (intros ->; simplify_eq; congruence).
  destruct (Exchange w probeQuery (Watch.server upj)) as [res w1].
  destruct (Watch.answered res); simpl; by rewrite list_lookup_insert_ne.
Qed.

(** X17.  An endpoint whose counter is above 20 is given up for good:
    whatever its server does afterwards, no run of the loop probes it,
    and it stays as it is, counter and time of the last probe
    included. *)
Theorem dead_endpoint_stays_dead (pause : World -> World) (n : nat)
    (st : MonitorState) (i : nat) (up : Watch.upstream) :
  st.1.1 !! i = Some up ->
  Watch.IsDead up = true ->
  (watch pause n st).1.1 !! i = Some up
  /\ probe st i = st.
Proof.
  intros Hup Hdead. split.
  - apply (watch_invariant (fun st => st.1.1 !! i = Some up)); try done.
    intros st' j H. by apply probe_keeps_dead.
  - destruct st as [[upstreams alive] w]. simpl in Hup.
    unfold Watch.probe. by rewrite Hup, Hdead.
Qed.

(** X18.  A server enters the serving set only through a probe of one
    of its endpoints that is answered with at least one record: if a
    probe leaves in the set a server that was not in it, the server is
    that of the probed endpoint, the endpoint was not given up, the
    probe was answered, the entry points to the endpoint and the
    counter of the endpoint is 0. *)
Theorem probe_promotion (upstreams upstreams' : list Watch.upstream)
    (alive alive' : gmap string nat) (w w' : World) (i k : nat)
    (up : Watch.upstream) (s : string) :
  upstreams !! i = Some up ->
  probe (upstreams, alive, w) i = (upstreams', alive', w') ->
  alive !! s = None ->
  alive' !! s = Some k ->
  s = Watch.server up /\ k = i
  /\ Watch.IsDead up = false
  /\ Watch.answered (Exchange w probeQuery (Watch.server up)).1 = true
  /\ exists up', upstreams' !! i = Some up' /\ Watch.failed up' = 0.
Proof.
  intros Hup Hprobe Hs Hk.
  pose proof (lookup_lt_Some _ _ _ Hup) as Hlt.
  unfold Watch.probe in Hprobe. rewrite Hup in Hprobe.
  destruct (Watch.IsDead up) eqn:Hdead.
  { injection Hprobe as <- <- <-. by rewrite Hs in Hk. }
  destruct (Exchange w probeQuery (Watch.server up)) as [res w1]. simpl.
  destruct (Watch.answered res) eqn:Hans; simpl in Hprobe;
    injection Hprobe as <- <- <-.
  - destruct (decide (Watch.server up = s)) as [<-|Hne].
    + rewrite lookup_insert_eq in Hk. injection Hk as <-.
      repeat split; try done.
      eexists. split; [by apply list_lookup_insert_eq|done].
    + rewrite lookup_insert_ne in Hk by done. by rewrite Hs in Hk.
  - destruct (bool_decide (is_Some (alive !! Watch.server up))
              && (5 <=? add64 (Watch.failed up) 1)).
    + apply lookup_delete_Some in Hk as [_ Hk]. by rewrite Hs in Hk.
    + by rewrite Hs in Hk.
Qed.

End monitor_more.

(** ** [src/unnamed/part_002]: more on the forwarder and the orchestrator *)

Section watch_more.
Context {World Query : Type}.
Variable newQuery : string -> Z -> Query.
Variable Exchange : World -> Query -> string -> ExchangeResult * World.
Variable Now : World -> Z.
Variable ParseIP : string -> dns.IP.
Variable Range : gmap string nat -> list (string * nat).

Local Abbreviation exchangeUpstreams := (Watch.exchangeUpstreams Exchange).
Local Abbreviation resolve := (Watch.resolve newQuery Exchange Range).
Local Abbreviation handleLocal := (Watch.handleLocal ParseIP).
Local Abbreviation serveQuestion :=
  (Watch.serveQuestion newQuery Exchange Now ParseIP Range).
Local Abbreviation visitsAll := (Watch.visitsAll Range).

(** X19.  While the serving set is empty, as it is from the start until
    a first probe is answered, a question that matches no local record
    and is not in the cache gets no record, no server is asked and
    nothing is stored. *)
Theorem watch_no_upstream (cfg : Config) (upstreams : list Watch.upstream)
    (question : dns.Question) (answer : list dns.RR)
    (cache : gmap string cacheItem) (w : World) :
  visitsAll ->
  match_ cfg question = None ->
  cache !! cacheKey (dns.q_Name question) (dns.q_Qtype question) = None ->
  serveQuestion cfg upstreams ∅ (answer, cache, w) question
  = (answer, cache, w).
Proof.
  intros Hrange Hm Hmiss.
  assert (Hnil : Range ∅ = []).
  { apply (proj1 (Permutation_nil_r _)).
    etrans; [apply Hrange|]. by rewrite map_to_list_empty. }
  unfold Watch.serveQuestion, Watch.handleLocal, Watch.resolve.
  rewrite Hmiss, Hm, Hnil. simpl. by rewrite !app_nil_r.
Qed.

Lemma exchangeUpstreams_failing m upstreams failing rest w w1 :
  Watch.failAll Exchange m upstreams failing w = Some w1 ->
  exchangeUpstreams m upstreams (failing ++ rest) w
  = exchangeUpstreams m upstreams rest w1.
Proof.
  revert w. induction failing as [|[s i] failing IH]; intros w; simpl.
  - by intros [= ->].
  - destruct (upstreams !! i) as [up|]; [|apply IH].
    destruct (Exchange w m (Watch.server up)) as [[e|Answer] w']; [|done].
    apply IH.
Qed.

(** X20.  In this revision too the forwarder passes over the endpoints
    whose exchange fails with an error and returns the answer section
    of the first reply without error, empty or not, in the order in
    which [Range] hands out the serving set; it stores nothing
    itself. *)
Theorem watch_resolve_failover (upstreams : list Watch.upstream)
    (alive : gmap string nat) (domain : string) (qtype : Z) (w w1 w2 : World)
    (failing rest : list (string * nat)) (s : string) (i : nat)
    (up : Watch.upstream) (Answer : list dns.RR) :
  Range alive = failing ++ (s, i) :: rest ->
  Watch.failAll Exchange (newQuery domain qtype) upstreams failing w = Some w1 ->
  upstreams !! i = Some up ->
  Exchange w1 (newQuery domain qtype) (Watch.server up)
  = (ExchangeReply Answer, w2) ->
  resolve upstreams alive domain qtype w = (Answer, w2).
Proof.
  intros Hr Hfail Hup Hreply. unfold Watch.resolve.
  rewrite Hr, (exchangeUpstreams_failing _ _ _ _ _ _ Hfail).
  simpl. by rewrite Hup, Hreply.
Qed.

Lemma exchangeUpstreams_reply m upstreams entries w first more w' :
  exchangeUpstreams m upstreams entries w = (first :: more, w') ->
  exists s i up wa,
    (s, i) ∈ entries /\ upstreams !! i = Some up
    /\ Exchange wa m (Watch.server up) = (ExchangeReply (first :: more), w').
Proof.
  revert w. induction entries as [|[s i] entries IH]; intros w; simpl; [done|].
  destruct (upstreams !! i) as [up|] eqn:Hup.
  - destruct (Exchange w m (Watch.server up)) as [[e|Answer] w1] eqn:E.
    + intros H. destruct (IH _ H) as (s' & i' & up' & wa & ? & ? & ?).
      exists s', i', up', wa. split; [by right | done].
    + intros [= -> ->]. exists s, i, up, w. split; [by left | done].
  - intros H. destruct (IH _ H) as (s' & i' & up' & wa & ? & ? & ?).
    exists s', i', up', wa. split; [by right | done].
Qed.

(** X21.  The forwarder of this revision asks the endpoints of the
    serving set only: an answer with at least one record that it
    returns is the answer section of a reply, without error, of the
    server of an endpoint that an entry of the serving set points
    to. *)
Theorem watch_resolve_asks_serving_set (upstreams : list Watch.upstream)
    (alive : gmap string nat) (domain : string) (qtype : Z) (w w' : World)
    (first : dns.RR) (more : list dns.RR) :
  visitsAll ->
  resolve upstreams alive domain qtype w = (first :: more, w') ->
  exists s i up wa,
    alive !! s = Some i /\ upstreams !! i = Some up
    /\ Exchange wa (newQuery domain qtype) (Watch.server up)
       = (ExchangeReply (first :: more), w').
Proof.
  intros Hrange H. unfold Watch.resolve in H.
  apply exchangeUpstreams_reply in H as (s & i & up & wa & Hin & Hup & He).
  exists s, i, up, wa. split; [|done].
  rewrite (Hrange alive) in Hin. by apply elem_of_map_to_list in Hin.
Qed.

(** X22.  In this revision a locally matched question is not
    forwarded: when the cache holds nothing for the question and the
    synthesizer makes a record of the matched record, the reply gets
    that record, no server is asked, and the record is stored in the
    cache under the key of the question, to expire after the
    configured TTL of the record. *)
Theorem watch_local_match (cfg : Config) (upstreams : list Watch.upstream)
    (alive : gmap string nat) (question : dns.Question) (r : Record_)
    (answer : list dns.RR) (cache : gmap string cacheItem) (w : World)
    (first : dns.RR) (more : list dns.RR) :
  cache !! cacheKey (dns.q_Name question) (dns.q_Qtype question) = None ->
  match_ cfg question = Some r ->
  Handler.synthesize ParseIP question r = first :: more ->
  serveQuestion cfg upstreams alive (answer, cache, w) question =
  (answer ++ first :: more,
   <[cacheKey (dns.q_Name question) (dns.q_Qtype question) :=
       mkCacheItem (add64 (Now w) (dns.hdr_Ttl (dns.Header first)))
                   (first :: more)]> cache,
   w).
Proof.
  intros Hmiss Hm Hsyn.
  unfold Watch.serveQuestion, Watch.handleLocal.
  rewrite Hmiss, Hm, Hsyn. simpl. by rewrite app_nil_r.
Qed.

(** X23.  A question this revision has answered with at least one
    record is answered with the same records when it is asked again on
    the cache the first call leaves, whatever the state of the monitor
    and of the world then: from the cache, without matching, without
    any exchange and without any change of the cache. *)
Theorem watch_serveQuestion_idempotent (cfg : Config)
    (upstreams upstreams2 : list Watch.upstream)
    (alive alive2 : gmap string nat) (question : dns.Question)
    (cache cache' : gmap string cacheItem) (w w' w2 : World)
    (first : dns.RR) (more answer : list dns.RR) :
  serveQuestion cfg upstreams alive ([], cache, w) question
  = (first :: more, cache', w') ->
  serveQuestion cfg upstreams2 alive2 (answer, cache', w2) question
  = (answer ++ first :: more, cache', w2).
Proof.
  unfold Watch.serveQuestion at 1.
  destruct (cache !! cacheKey (dns.q_Name question) (dns.q_Qtype question))
    as [[e [|f l]]|] eqn:Hc; simpl.
  2: { intros [= <- <- <- <-]. unfold Watch.serveQuestion.
       by rewrite Hc. }
  all: destruct (let '(local, ok) := handleLocal cfg question in
                 if ok then (local, w)
                 else resolve upstreams alive (dns.q_Name question)
                        (dns.q_Qtype question) w) as [answers w1];
    destruct answers as [|f l]; [done|];
    intros [= <- <- <- <-]; unfold Watch.serveQuestion;
    by rewrite lookup_insert_eq.
Qed.

End watch_more.

(** ** The revision with the monitor run on the scenarios *)

Section watch_scenarios.
Import Scenario.

Local Abbreviation probeQuery := ("www.baidu.com.", dns.TypeA).
Local Abbreviation question_www :=
  (dns.mkQuestion "www.example.com." dns.TypeA dns.ClassINET).
Local Abbreviation answer_www :=
  (dns.A (dns.mkHeader "www.example.com." dns.TypeA dns.ClassINET 300)
         [0; 0; 0; 0; 0; 0; 0; 0; 0; 0; 255; 255; 1; 2; 3; 4]).

(** After one run of the loop the server of the scenario is served
    from. *)
Lemma watch_serving_sound_witness :
  "8.8.8.8:53" ∈ cfg_Servers exampleCfg
  /\ exists up,
       (Watch.watch probeQuery Exchange Now id 1
          (Watch.watchInit exampleCfg w0)).1.1 !! 0%nat = Some up
       /\ Watch.server up = "8.8.8.8:53" /\ 0 <= Watch.failed up <= 4.
Proof.
  apply (watch_serving_sound probeQuery Exchange Now id 1 exampleCfg w0
           "8.8.8.8:53" 0).
  vm_compute. reflexivity.
Defined.

(** An endpoint that has failed 21 times, whose server would answer. *)
Lemma dead_endpoint_stays_dead_witness :
  (Watch.watch probeQuery Exchange Now id 3
     ([Watch.mkUpstream "8.8.8.8:53" 1699999991 21], ∅, w0)).1.1 !! 0%nat
  = Some (Watch.mkUpstream "8.8.8.8:53" 1699999991 21).
Proof.
  apply (proj1 (dead_endpoint_stays_dead probeQuery Exchange Now id 3
                  ([Watch.mkUpstream "8.8.8.8:53" 1699999991 21], ∅, w0) 0
                  (Watch.mkUpstream "8.8.8.8:53" 1699999991 21)
                  eq_refl eq_refl)).
Defined.

(** An endpoint that has failed seven times answers a probe. *)
Lemma probe_promotion_witness :
  "8.8.8.8:53" = "8.8.8.8:53" /\ 0%nat = 0%nat
  /\ Watch.IsDead (Watch.mkUpstream "8.8.8.8:53" 1699999991 7) = false
  /\ Watch.answered (Exchange w0 probeQuery "8.8.8.8:53").1 = true
  /\ exists up',
       [Watch.mkUpstream "8.8.8.8:53" 1700000001 0] !! 0%nat = Some up'
       /\ Watch.failed up' = 0.
Proof.
  apply (probe_promotion probeQuery Exchange Now
           [Watch.mkUpstream "8.8.8.8:53" 1699999991 7]
           [Watch.mkUpstream "8.8.8.8:53" 1700000001 0]
           ∅ {["8.8.8.8:53" := 0%nat]}
           w0 (mkWorld 1700000001 ["8.8.8.8:53"]) 0 0
           (Watch.mkUpstream "8.8.8.8:53" 1699999991 7) "8.8.8.8:53").
  - reflexivity.
  - vm_compute. reflexivity.
  - apply lookup_empty.
  - apply lookup_singleton_eq.
Defined.

(** A name outside the zone asked before any probe has been answered. *)
Lemma watch_no_upstream_witness :
  Watch.serveQuestion newQuery Exchange Now ParseIP map_to_list
    exampleCfg [Watch.mkUpstream "8.8.8.8:53" 0 0] ∅ ([], ∅, w0)
    (dns.mkQuestion "example.org." dns.TypeA dns.ClassINET)
  = ([], ∅, w0).
Proof.
  apply (watch_no_upstream newQuery Exchange Now ParseIP map_to_list
           exampleCfg [Watch.mkUpstream "8.8.8.8:53" 0 0]
           (dns.mkQuestion "example.org." dns.TypeA dns.ClassINET) [] ∅ w0).
  - intros alive. reflexivity.
  - vm_compute. reflexivity.
  - apply lookup_empty.
Defined.

(** A walk that meets an endpoint that times out and then the server of
    the scenario. *)
Lemma watch_resolve_failover_witness :
  Watch.resolve newQuery Exchange
    (fun _ => [("10.0.0.1:53", 0%nat); ("8.8.8.8:53", 1%nat)])
    [Watch.mkUpstream "10.0.0.1:53" 0 0; Watch.mkUpstream "8.8.8.8:53" 0 0]
    ∅ "example.org." dns.TypeA w0
  = (upstreamAnswer "example.org.",
     mkWorld 1700000002 ["8.8.8.8:53"; "10.0.0.1:53"]).
Proof.
  apply (watch_resolve_failover newQuery Exchange
           (fun _ => [("10.0.0.1:53", 0%nat); ("8.8.8.8:53", 1%nat)])
           [Watch.mkUpstream "10.0.0.1:53" 0 0;
            Watch.mkUpstream "8.8.8.8:53" 0 0]
           ∅ "example.org." dns.TypeA w0
           (mkWorld 1700000001 ["10.0.0.1:53"])
           (mkWorld 1700000002 ["8.8.8.8:53"; "10.0.0.1:53"])
           [("10.0.0.1:53", 0%nat)] [] "8.8.8.8:53" 1
           (Watch.mkUpstream "8.8.8.8:53" 0 0)
           (upstreamAnswer "example.org."));
    reflexivity.
Defined.

(** The answer for ["example.org."] comes from the served endpoint. *)
Lemma watch_resolve_asks_serving_set_witness :
  exists s i up wa,
    ({["8.8.8.8:53" := 0%nat]} : gmap string nat) !! s = Some i
    /\ [Watch.mkUpstream "8.8.8.8:53" 0 0] !! i = Some up
    /\ Exchange wa (newQuery "example.org." dns.TypeA) (Watch.server up)
       = (ExchangeReply (upstreamAnswer "example.org."),
          mkWorld 1700000001 ["8.8.8.8:53"]).
Proof.
  apply (watch_resolve_asks_serving_set newQuery Exchange map_to_list
           [Watch.mkUpstream "8.8.8.8:53" 0 0] {["8.8.8.8:53" := 0%nat]}
           "example.org." dns.TypeA w0 (mkWorld 1700000001 ["8.8.8.8:53"])
           (dns.A (dns.mkHeader "example.org." dns.TypeA dns.ClassINET 60)
                  [0; 0; 0; 0; 0; 0; 0; 0; 0; 0; 255; 255; 93; 184; 216; 34])
           []).
  - intros alive. reflexivity.
  - vm_compute. reflexivity.
Defined.

(** The question of the scenario in this revision: answered from the
    zone, stored for 300 seconds, and no server is asked. *)
Lemma watch_local_match_witness :
  Watch.serveQuestion newQuery Exchange Now ParseIP map_to_list
    exampleCfg [Watch.mkUpstream "8.8.8.8:53" 0 0] {["8.8.8.8:53" := 0%nat]}
    ([], ∅, w0) question_www
  = ([] ++ [answer_www],
     <[cacheKey "www.example.com." dns.TypeA :=
         mkCacheItem (add64 (Now w0) 300) [answer_www]]> ∅,
     w0).
Proof.
  apply (watch_local_match newQuery Exchange Now ParseIP map_to_list
           exampleCfg [Watch.mkUpstream "8.8.8.8:53" 0 0]
           {["8.8.8.8:53" := 0%nat]} question_www wwwRecord [] ∅ w0
           answer_www []).
  - apply lookup_empty.
  - vm_compute. reflexivity.
  - vm_compute. reflexivity.
Defined.

(** The same question asked again, with no endpoint served from. *)
Lemma watch_serveQuestion_idempotent_witness :
  Watch.serveQuestion newQuery Exchange Now ParseIP map_to_list
    exampleCfg [] ∅
    ([], <["www.example.com.-1" := mkCacheItem 1700000300 [answer_www]]> ∅, w0)
    question_www
  = ([] ++ [answer_www],
     <["www.example.com.-1" := mkCacheItem 1700000300 [answer_www]]> ∅, w0).
Proof.
  apply (watch_serveQuestion_idempotent newQuery Exchange Now ParseIP
           map_to_list exampleCfg
           [Watch.mkUpstream "8.8.8.8:53" 0 0] []
           {["8.8.8.8:53" := 0%nat]} ∅ question_www ∅
           (<["www.example.com.-1" :=
                mkCacheItem 1700000300 [answer_www]]> ∅)
           w0 w0 w0 answer_www [] []).
  vm_compute. reflexivity.
Defined.

End watch_scenarios.

(** ** [src/unnamed/part_001]: the first revision *)

Lemma early_typeMap_sub (k : string) (t : Z) :
  Early.typeMap !! k = Some t <-> typeMap !! k = Some t /\ t <> dns.TypeHTTPS.
Proof.
  unfold Early.typeMap, typeMap, dns.TypeA, dns.TypeAAAA, dns.TypeTXT,
    dns.TypeCNAME, dns.TypeMX, dns.TypeHTTPS. simpl.
  split.
  - intros H.
    repeat (rewrite lookup_insert in H; case_decide;
            [simplify_eq; split; [vm_compute; reflexivity | lia]|]).
    by rewrite lookup_empty in H.
  - intros [H Hne].
    repeat (rewrite lookup_insert in H; case_decide;
            [simplify_eq; try (vm_compute; reflexivity); lia|]).
    by rewrite lookup_empty in H.
Qed.

Lemma early_typeMapRev_supported (t : Z) :
  is_Some (Early.typeMapRev !! t) <->
  is_Some (typeMapRev !! t) /\ t <> dns.TypeHTTPS.
Proof.
  assert (He : Early.typeMapRev =
               list_to_map [ (1, "A"); (28, "AAAA"); (16, "TXT");
                             (5, "CNAME"); (15, "MX") ])
    by (vm_compute; reflexivity).
  rewrite typeMapRev_supported, He.
  unfold dns.TypeA, dns.TypeAAAA, dns.TypeTXT, dns.TypeCNAME, dns.TypeMX,
    dns.TypeHTTPS. simpl.
  repeat (rewrite lookup_insert; case_decide;
          [split; [intros _; lia | eauto]|]).
  rewrite lookup_empty. split; [intros [? ?]; done | lia].
Qed.

Section early.
Import strings.
Context {World Query : Type}.
Variable newQuery : string -> Z -> Query.
Variable Exchange : World -> Query -> string -> ExchangeResult * World.
Variable ParseIP : string -> dns.IP.

Local Abbreviation resolve := (Early.resolve newQuery Exchange).
Local Abbreviation serveQuestion :=
  (Early.serveQuestion newQuery Exchange ParseIP).
Local Abbreviation ServeDNS := (Early.ServeDNS newQuery Exchange ParseIP).
Local Abbreviation serveAll := (Early.serveAll newQuery Exchange ParseIP).

Implicit Types (question : dns.Question) (r : Record_).

Lemma localRecords_Some question d rs r :
  Early.localRecords question d rs = Some r ->
  r ∈ rs /\ Early.typeMap !! rec_Type r = Some (dns.q_Qtype question)
  /\ nameMisses question d r = false.
Proof.
  induction rs as [|r1 rs IH]; [done|]. simpl.
  destruct (Early.typeMap !! rec_Type r1) as [t|] eqn:Et.
  - destruct (Z.eqb_spec t (dns.q_Qtype question)) as [->|Hne]; simpl.
    + destruct (nameMisses question d r1) eqn:En.
      * intros H. destruct (IH H) as (? & ? & ?). split; [by right | done].
      * intros [= <-]. split; [by left | done].
    + intros H. destruct (IH H) as (? & ? & ?). split; [by right | done].
  - intros H. destruct (IH H) as (? & ? & ?). split; [by right | done].
Qed.

Lemma localDomains_Some question ds r :
  Early.localDomains question ds = Some r ->
  exists d, d ∈ ds /\ r ∈ dom_Records d
    /\ Contains (dns.q_Name question) (dom_Name d) = true
    /\ Early.typeMap !! rec_Type r = Some (dns.q_Qtype question)
    /\ nameMisses question d r = false.
Proof.
  induction ds as [|d ds IH]; [done|]. simpl.
  assert (Hrest : Early.localDomains question ds = Some r ->
                  exists d0, d0 ∈ d :: ds /\ r ∈ dom_Records d0
                    /\ Contains (dns.q_Name question) (dom_Name d0) = true
                    /\ Early.typeMap !! rec_Type r = Some (dns.q_Qtype question)
                    /\ nameMisses question d0 r = false).
  { intros H. destruct (IH H) as (d0 & ? & ?). exists d0.
    split; [by right | done]. }
  destruct (Contains (dns.q_Name question) (dom_Name d)) eqn:Ec; simpl;
    [|exact Hrest].
  destruct (Early.typeMapRev !! dns.q_Qtype question); [|exact Hrest].
  destruct (Early.localRecords question d (dom_Records d)) as [r0|] eqn:El;
    [|exact Hrest].
  intros [= ->]. apply localRecords_Some in El as (? & ? & ?).
  exists d. split; [by left | done].
Qed.

(** X24.  In the first revision a question answered from the zones is
    not forwarded, and there is no alias fallback: when the loop over
    the zones stops at a record, the reply gets what the [switch]
    makes of it, the cache and the world are left as they are, and the
    record is one of a configured domain whose name the question
    contains, a name match whose type is exactly the type asked for. *)
Theorem early_local_match (cfg : Config) question r (answer : list dns.RR)
    (cache : gmap string (list dns.RR)) (w : World) :
  Early.localDomains question (cfg_Domains cfg) = Some r ->
  serveQuestion cfg (answer, cache, w) question
  = (answer ++ Early.synthesize ParseIP question r, cache, w)
  /\ exists d, d ∈ cfg_Domains cfg /\ r ∈ dom_Records d
       /\ Contains (dns.q_Name question) (dom_Name d) = true
       /\ Early.typeMap !! rec_Type r = Some (dns.q_Qtype question)
       /\ nameMisses question d r = false.
Proof.
  intros H. split; [|by apply localDomains_Some].
  unfold Early.serveQuestion, Early.handleLocal. by rewrite H.
Qed.

(** X25.  In the first revision a question of type TXT that a
    configured TXT record matches is swallowed: the loop stops at the
    record, the [switch] has no case for the type, so the reply gets no
    record for the question, and the question is not forwarded
    either. *)
Theorem early_txt_swallowed (cfg : Config) question r (answer : list dns.RR)
    (cache : gmap string (list dns.RR)) (w : World) :
  Early.localDomains question (cfg_Domains cfg) = Some r ->
  rec_Type r = "TXT" ->
  serveQuestion cfg (answer, cache, w) question = (answer, cache, w).
Proof.
  intros H Hty.
  destruct (localDomains_Some _ _ _ H) as (d & _ & _ & _ & Ht & _).
  rewrite Hty in Ht. injection Ht as Ht.
  unfold Early.serveQuestion, Early.handleLocal, Early.synthesize.
  rewrite H, <- Ht. simpl. by rewrite app_nil_r.
Qed.

Lemma early_exchangeServers_keeps m key servers cache w key' v :
  cache !! key = None -> cache !! key' = Some v ->
  (Early.exchangeServers Exchange m key servers cache w).1.2 !! key' = Some v.
Proof.
  intros Hmiss Hv. revert w.
  induction servers as [|server servers IH]; intros w; simpl; [done|].
  destruct (Exchange w m server) as [[e|Answer] w1]; [apply IH|].
  destruct (0 <? length Answer)%nat; simpl; [|done].
  rewrite lookup_insert_ne; [done|]. intros <-. by simplify_eq.
Qed.

Lemma early_serveQuestion_keeps cfg question st key v :
  st.1.2 !! key = Some v ->
  (serveQuestion cfg st question).1.2 !! key = Some v.
Proof.
  destruct st as [[answer cache] w]. simpl. intros Hv.
  unfold Early.serveQuestion.
  destruct (Early.handleLocal ParseIP cfg question answer) as [answer1 [|]];
    [done|].
  unfold Early.resolve.
  destruct (cache !! cacheKey (dns.q_Name question) (dns.q_Qtype question))
    as [v0|] eqn:E; [done|].
  pose proof (early_exchangeServers_keeps
                (newQuery (dns.q_Name question) (dns.q_Qtype question))
                _ (cfg_Servers cfg) cache w key v E Hv) as H.
  by destruct (Early.exchangeServers Exchange _ _ _ cache w) as [[? ?] ?].
Qed.

Lemma early_ServeDNS_keeps cfg questions cache w key v :
  cache !! key = Some v ->
  (ServeDNS cfg questions cache w).1.2 !! key = Some v.
Proof.
  intros Hv. unfold Early.ServeDNS.
  assert (H : forall st, st.1.2 !! key = Some v ->
            (fold_left (serveQuestion cfg) questions st).1.2 !! key = Some v).
  { induction questions as [|q qs IH]; intros st Hst; [done|].
    cbn [fold_left]. by apply IH, early_serveQuestion_keeps. }
  specialize (H ([], cache, w) Hv).
  by destruct (fold_left (serveQuestion cfg) questions ([], cache, w))
    as [[? ?] ?].
Qed.

(** X26.  The cache of the first revision never forgets: there is no
    expiry and no sweep, and serving never replaces an entry, so an
    answer once stored for a question is what every later call of
    [resolve] for the question returns, whatever messages are served
    in between. *)
Theorem early_cache_never_forgets (cfg : Config)
    (msgs : list (list dns.Question * World))
    (cache : gmap string (list dns.RR)) (domain : string) (qtype : Z)
    (answers : list dns.RR) (w : World) :
  cache !! cacheKey domain qtype = Some answers ->
  resolve cfg domain qtype (serveAll cfg msgs cache) w
  = (answers, serveAll cfg msgs cache, w).
Proof.
  intros Hv.
  assert (H : serveAll cfg msgs cache !! cacheKey domain qtype = Some answers).
  { revert cache Hv. unfold Early.serveAll.
    induction msgs as [|msg msgs IH]; intros cache Hv; [done|].
    cbn [fold_left]. by apply IH, early_ServeDNS_keeps. }
  unfold Early.resolve. by rewrite H.
Qed.

Lemma early_localRecords_agree question d rs :
  match matchRecords question d rs with
  | Some r =>
      typeMap !! rec_Type r = Some (dns.q_Qtype question) ->
      dns.q_Qtype question <> dns.TypeHTTPS ->
      Early.localRecords question d rs = Some r
  | None => Early.localRecords question d rs = None
  end.
Proof.
  induction rs as [|r1 rs IH]; [done|].
  rewrite matchRecords_step. unfold selects. simpl.
  destruct (Early.typeMap !! rec_Type r1) as [t|] eqn:Et.
  - apply early_typeMap_sub in Et as [Et Hne]. rewrite Et.
    destruct (Z.eqb_spec t (dns.q_Qtype question)) as [->|Hq]; simpl.
    + destruct (nameMisses question d r1); simpl; [exact IH | done].
    + destruct (nameMisses question d r1); simpl; [exact IH|].
      destruct (t =? dns.TypeCNAME); [|exact IH].
      intros Hty. rewrite Et in Hty. by simplify_eq.
  - destruct (negb (nameMisses question d r1)); simpl; [|exact IH].
    destruct (typeMap !! rec_Type r1) as [t|] eqn:Et'; [|exact IH].
    destruct ((t =? dns.q_Qtype question) || (t =? dns.TypeCNAME)) eqn:Ea;
      [|exact IH].
    intros Hty Hne.
    assert (Hq : typeMap !! rec_Type r1 = Some (dns.q_Qtype question))
      by congruence.
    assert (Early.typeMap !! rec_Type r1 = Some (dns.q_Qtype question))
      by (by apply early_typeMap_sub).
    congruence.
Qed.

(** X27.  The first revision and [src/handler.go] agree on exact
    matches: when [match] returns a record whose type is the type asked
    for, other than HTTPS, the loop of the first revision stops at the
    same record. *)
Theorem early_agrees_on_exact_match (cfg : Config) question r :
  match_ cfg question = Some r ->
  typeMap !! rec_Type r = Some (dns.q_Qtype question) ->
  dns.q_Qtype question <> dns.TypeHTTPS ->
  Early.localDomains question (cfg_Domains cfg) = Some r.
Proof.
  intros Hm Hty Hne. unfold match_ in Hm.
  assert (Hsup : is_Some (Early.typeMapRev !! dns.q_Qtype question)).
  { apply early_typeMapRev_supported. split; [|done].
    by eapply typeMap_supported. }
  destruct Hsup as [k Hk].
  induction (cfg_Domains cfg) as [|d ds IH]; [done|].
  simpl in *.
  destruct (Contains (dns.q_Name question) (dom_Name d)); simpl in *;
    [|by apply IH].
  rewrite Hk.
  destruct (typeMapRev !! dns.q_Qtype question) eqn:Er.
  - pose proof (early_localRecords_agree question d (dom_Records d)) as Ha.
    destruct (matchRecords question d (dom_Records d)) as [r0|].
    + injection Hm as ->. by rewrite Ha.
    + rewrite Ha. by apply IH.
  - exfalso. pose proof (typeMap_supported _ _ Hty) as [? ?]. congruence.
Qed.

End early.

Section early_scenarios.
Import Scenario.

Local Abbreviation question_www :=
  (dns.mkQuestion "www.example.com." dns.TypeA dns.ClassINET).

(** The question of the scenario in the first revision: one record, and
    the server of the configuration is not asked. *)
Lemma early_local_match_witness :
  Early.serveQuestion newQuery Exchange ParseIP exampleCfg ([], ∅, w0)
    question_www
  = ([] ++ Early.synthesize ParseIP question_www wwwRecord, ∅, w0).
Proof.
  apply (proj1 (early_local_match newQuery Exchange ParseIP exampleCfg
                  question_www wwwRecord [] ∅ w0
                  ltac:(vm_compute; reflexivity))).
Defined.

(** The text record of the zone, with a server that would answer. *)
Lemma early_txt_swallowed_witness :
  Early.serveQuestion newQuery Exchange ParseIP
    (cfgOf ["8.8.8.8:53"] [textRecord]) ([], ∅, w0)
    (dns.mkQuestion "txt.example.com." dns.TypeTXT dns.ClassINET)
  = ([], ∅, w0).
Proof.
  apply (early_txt_swallowed newQuery Exchange ParseIP
           (cfgOf ["8.8.8.8:53"] [textRecord])
           (dns.mkQuestion "txt.example.com." dns.TypeTXT dns.ClassINET)
           textRecord [] ∅ w0);
    vm_compute; reflexivity.
Defined.

(** An answer stored for ["example.org."] outlives two messages. *)
Lemma early_cache_never_forgets_witness :
  (Early.resolve newQuery Exchange exampleCfg "example.org." dns.TypeA
     (Early.serveAll newQuery Exchange ParseIP exampleCfg
        [([question_www], w0);
         ([dns.mkQuestion "example.org." dns.TypeA dns.ClassINET], w0)]
        (<["example.org.-1" := upstreamAnswer "old.example.org."]> ∅))
     w0).1.1
  = upstreamAnswer "old.example.org.".
Proof.
  rewrite (early_cache_never_forgets newQuery Exchange ParseIP exampleCfg
             [([question_www], w0);
              ([dns.mkQuestion "example.org." dns.TypeA dns.ClassINET], w0)]
             (<["example.org.-1" := upstreamAnswer "old.example.org."]> ∅)
             "example.org." dns.TypeA (upstreamAnswer "old.example.org.") w0
             (lookup_insert_eq _ _ _)).
  reflexivity.
Defined.

(** The record of the scenario is found by both revisions. *)
Lemma early_agrees_on_exact_match_witness :
  Early.localDomains question_www (cfg_Domains exampleCfg) = Some wwwRecord.
Proof.
  apply (early_agrees_on_exact_match exampleCfg question_www wwwRecord).
  - vm_compute. reflexivity.
  - vm_compute. reflexivity.
  - discriminate.
Defined.

End early_scenarios.
